(** * impfe: a Prometheus exporter for the Berlin vaccination centres

    Shallow embedding of [main.go].  One scrape ([Collect]) fetches the
    catalogue ([Impfzentren]), classifies every centre's vaccination types
    into an enabled and a disabled mapping, starts one goroutine
    ([CollectAvailability]) per enabled pair and sends gauge samples on the
    collector channel.

    Conventions of the embedding
    - Go [int] is [Z]: the program only stores, compares and prints the
      identifiers it decodes, it never computes with them.
    - Go maps are [gmap]s.  A read of a missing key gives the zero value
      ([index]); a write overwrites.  [practiceByID] holds pointers in the
      source, one fresh [Impfzentrum] per key and never shared between two
      keys, so the map of pointers is a map of records here.
    - [for ... range m] over a map visits the entries in an order Go leaves
      unspecified: the loops take the order from a parameter [range], of
      which only [range m ≡ₚ map_to_list m] is assumed.
    - [http.Get] and [json.Unmarshal] are outside the program: a request is
      answered by a value of [HttpGet], which says how far the exchange got.
    - A dereference of a nil pointer is the outcome [Panic].
    - The goroutines only meet on the channel; a run is a list of events,
      each tagged with the goroutine that performed it.  [wg.Wait()] is the
      end of the list: every goroutine started has run to its return.
    - The two descriptors are those [Describe] builds when the collector is
      registered; a sample names its descriptor. *)

From Stdlib Require Import ZArith Ascii String.
From Stdlib Require PrimFloat Uint63.
From stdpp Require Import gmap strings list fin_maps pretty sorting.

Local Open Scope Z_scope.

(** ** The decoded JSON documents *)

Record Step := {
  Step_Start : string;
  Step_End : string;
  Step_VititMotiveID : Z;
  Step_AgendaID : Z }.

Record Slot := {
  Slot_Start : string;
  Slot_End : string;
  Slot_Steps : list Step;
  Slot_AgendaID : Z }.

Record Availability := {
  Availability_Date : string;
  Availability_Slots : list Slot }.

Record AvailbilitiesResponse := {
  Total : Z;
  Reason : string;
  Message : string;
  NumberOfFutureVacinations : Z;
  NextSlot : string;
  Availabilities : list Availability }.

Record Place := {
  Place_Name : string;
  Place_PractiseIDs : list Z }.

Record Agenda := {
  Agenda_ID : Z;
  Agenda_VisitMotives : list Z;
  Agenda_PracticeID : Z;
  Agenda_BookingDisabled : bool;
  Agenda_BookingTemporayDisabled : bool }.

Record VisitMotive := {
  VisitMotive_ID : Z;
  VisitMotive_Name : string }.

(** [CIZRespone.Data], the only field of the catalogue document. *)
Record CIZRespone := {
  Places : list Place;
  Agendas : list Agenda;
  VisitMotives : list VisitMotive }.

Record Impfzentrum := {
  ID : Z;
  Name : string;
  DisabledVaccination : gmap Z string;
  Vaccination : gmap Z string;
  AgendaIDs : list Z }.

(** ** Outcomes *)

(** How far one [http.Get] followed by [io.ReadAll] and [json.Unmarshal]
    got. *)
Inductive ReadAll (A : Type) :=
  | ReadFailed (err : string)
  | Undecodable (body err : string)
  | Decoded (a : A).
Arguments ReadFailed {A} err.
Arguments Undecodable {A} body err.
Arguments Decoded {A} a.

Inductive HttpGet (A : Type) :=
  | RequestFailed (err : string)
  | Response (StatusCode : Z) (Status : string) (Body : ReadAll A).
Arguments RequestFailed {A} err.
Arguments Response {A} StatusCode Status Body.

(** The four [fmt.Errorf] values of [Impfzentren] and [GetAvailabilities]. *)
Inductive error :=
  | ErrRequest (err : string)
  | ErrStatus (Status : string)
  | ErrReadingBody (err : string)
  | ErrParseResponse (body err : string).

(** What a call comes back with: a value, an [error], or a run-time panic. *)
Inductive outcome (A : Type) :=
  | Return (a : A)
  | Fail (err : error)
  | Panic.
Arguments Return {A} a.
Arguments Fail {A} err.
Arguments Panic {A}.

(** The part shared by both clients: request, status check, read, decode. *)
Definition fetch {A : Type} (resp : HttpGet A) : A + error :=
  match resp with
  | RequestFailed err => inr (ErrRequest err)
  | Response StatusCode Status Body =>
      if 399 <? StatusCode then inr (ErrStatus Status)
      else match Body with
           | ReadFailed err => inr (ErrReadingBody err)
           | Undecodable body err => inr (ErrParseResponse body err)
           | Decoded a => inl a
           end
  end.

(** ** Classification of the catalogue ([Impfzentren], lines 220-248) *)

(** [m[k]] on a [map[int]string]: the empty string when [k] is missing. *)
Definition index (m : gmap Z string) (k : Z) : string := default "" (m !! k).

Definition motiveByID (ms : list VisitMotive) : gmap Z string :=
  foldl (λ m v, <[VisitMotive_ID v := VisitMotive_Name v]> m) ∅ ms.

Definition newImpfzentrum (name : string) (id : Z) : Impfzentrum :=
  {| ID := id; Name := name; DisabledVaccination := ∅; Vaccination := ∅;
     AgendaIDs := [] |}.

Definition addPlace (m : gmap Z Impfzentrum) (p : Place) : gmap Z Impfzentrum :=
  match Place_PractiseIDs p with
  | [] => m
  | id :: _ => <[id := newImpfzentrum (Place_Name p) id]> m
  end.

Definition practiceByID (ps : list Place) : gmap Z Impfzentrum :=
  foldl addPlace ∅ ps.

Definition appendAgendaID (c : Impfzentrum) (id : Z) : Impfzentrum :=
  {| ID := ID c; Name := Name c; DisabledVaccination := DisabledVaccination c;
     Vaccination := Vaccination c; AgendaIDs := AgendaIDs c ++ [id] |}.

Definition disabling (a : Agenda) : bool :=
  Agenda_BookingDisabled a || Agenda_BookingTemporayDisabled a.

(** The body of the inner loop: one write into one of the two mappings. *)
Definition setMotive (names : gmap Z string) (a : Agenda)
    (c : Impfzentrum) (motiveID : Z) : Impfzentrum :=
  if disabling a then
    {| ID := ID c; Name := Name c;
       DisabledVaccination := <[motiveID := index names motiveID]> (DisabledVaccination c);
       Vaccination := Vaccination c; AgendaIDs := AgendaIDs c |}
  else
    {| ID := ID c; Name := Name c;
       DisabledVaccination := DisabledVaccination c;
       Vaccination := <[motiveID := index names motiveID]> (Vaccination c);
       AgendaIDs := AgendaIDs c |}.

(** The body of the agenda loop.  [practiceByID[a.PracticeID]] is nil when
    no place put that practice first, and the first statement reads a field
    through it. *)
Definition addAgenda (names : gmap Z string) (m : gmap Z Impfzentrum)
    (a : Agenda) : option (gmap Z Impfzentrum) :=
  match m !! Agenda_PracticeID a with
  | None => None
  | Some c =>
      Some (<[Agenda_PracticeID a :=
                foldl (setMotive names a) (appendAgendaID c (Agenda_ID a))
                      (Agenda_VisitMotives a)]> m)
  end.

Fixpoint agendaLoop (names : gmap Z string) (m : gmap Z Impfzentrum)
    (agendas : list Agenda) : option (gmap Z Impfzentrum) :=
  match agendas with
  | [] => Some m
  | a :: rest =>
      match addAgenda names m a with
      | None => None
      | Some m' => agendaLoop names m' rest
      end
  end.

(** The three loops; [None] is the nil dereference. *)
Definition classify (ciz : CIZRespone) : option (gmap Z Impfzentrum) :=
  agendaLoop (motiveByID (VisitMotives ciz)) (practiceByID (Places ciz))
             (Agendas ciz).

(** The first practice identifiers of the places that have one, in order. *)
Definition firstPracticeIDs (ps : list Place) : list Z :=
  omap (λ p, head (Place_PractiseIDs p)) ps.

(** ** Time ([time.Parse], [time.Until], [Duration.Hours])

    An instant ([time.Time]) is its number of nanoseconds since
    1970-01-01T00:00:00Z; a [time.Duration] is an [int64] count of
    nanoseconds. *)

Definition Second : Z := 1000000000.
Definition Hour : Z := 60 * 60 * Second.
Definition minDuration : Z := - 2 ^ 63.
Definition maxDuration : Z := 2 ^ 63 - 1.

Definition isLeap (year : Z) : bool :=
  (year mod 4 =? 0) && (negb (year mod 100 =? 0) || (year mod 400 =? 0)).

(** [daysBefore[m]]: days of a common year before the end of month [m]. *)
Definition daysBefore (m : Z) : Z :=
  nth (Z.to_nat m) [0; 31; 59; 90; 120; 151; 181; 212; 243; 273; 304; 334; 365] 0.

Definition daysIn (m year : Z) : Z :=
  if (m =? 2) && isLeap year then 29 else daysBefore m - daysBefore (m - 1).

(** Leap years up to and including [year], up to a constant. *)
Definition leapsThrough (year : Z) : Z := year / 4 - year / 100 + year / 400.

(** Days from 1970-01-01 to the given day of the proleptic Gregorian
    calendar. *)
Definition daysSinceEpoch (year month day : Z) : Z :=
  365 * (year - 1970) + (leapsThrough (year - 1) - leapsThrough 1969)
  + daysBefore (month - 1)
  + (if isLeap year && (3 <=? month) then 1 else 0)
  + (day - 1).

(** [time.Date(year, month, day, 0, 0, 0, 0, time.UTC)]. *)
Definition Date (year month day : Z) : Z :=
  daysSinceEpoch year month day * 24 * Hour.

Definition isDigit (c : ascii) : bool :=
  ((48 <=? N_of_ascii c) && (N_of_ascii c <=? 57))%N.

Definition digit (c : ascii) : Z := Z.of_N (N_of_ascii c) - 48.

(** [time.Parse("2006-01-02", value)]: four digits, a dash, two digits, a
    dash, two digits and nothing after; the month in 1..12 and the day in
    the month.  The result is midnight UTC of that day. *)
Definition Parse (value : string) : option Z :=
  match list_ascii_of_string value with
  | [y1; y2; y3; y4; s1; m1; m2; s2; d1; d2] =>
      if forallb isDigit [y1; y2; y3; y4; m1; m2; d1; d2]
         && Ascii.eqb s1 "-" && Ascii.eqb s2 "-"
      then
        let year := 1000 * digit y1 + 100 * digit y2 + 10 * digit y3 + digit y4 in
        let month := 10 * digit m1 + digit m2 in
        let day := 10 * digit d1 + digit d2 in
        if (month <=? 0) || (12 <? month) then None
        else if (day <? 1) || (daysIn month year <? day) then None
        else Some (Date year month day)
      else None
  | _ => None
  end.

(** [t.Sub(u)]: the difference, or the nearest [Duration] when it does not
    fit. *)
Definition Sub (t u : Z) : Z :=
  if (minDuration <=? t - u) && (t - u <=? maxDuration) then t - u
  else if t <? u then minDuration else maxDuration.

(** [time.Until(t)], the clock reading [now]. *)
Definition Until (now t : Z) : Z := Sub t now.

(** [float64(z)] for an integer below 2^53 in absolute value, where the
    conversion is exact. *)
Definition float64 (z : Z) : PrimFloat.float :=
  if z <? 0 then PrimFloat.opp (PrimFloat.of_uint63 (Uint63.of_Z (- z)))
  else PrimFloat.of_uint63 (Uint63.of_Z z).

(** [d.Hours()]: Go's [/] and [%] on integers truncate toward zero. *)
Definition Hours (d : Z) : PrimFloat.float :=
  let hour := Z.quot d Hour in
  let nsec := Z.rem d Hour in
  PrimFloat.add (float64 hour) (PrimFloat.div (float64 nsec) (float64 (60 * 60 * 1000000000))).

(** ** Metrics, events and the world of one scrape *)

Inductive Desc := impfzentrumMetric | nextSlotMetric.

Inductive ValueType := GaugeValue.

Record Metric := MustNewConstMetric {
  desc : Desc;
  valueType : ValueType;
  value : PrimFloat.float;
  labelValues : list string }.

Inductive logline :=
  | ErrorFetchingImpfzentren (err : error)
  | Calling (practice motive : Z) (aganda_ids : list Z)
  | FailedToGetAvailabilities (name : string) (err : error)
  | Printf (r : AvailbilitiesResponse)
  | FailedToParseNextSlot (nextDate : string).

(** [Get] is the request of [GetAvailabilities]; its query also carries
    the current date and four constants. *)
Inductive event :=
  | Get (practice motive : Z) (aganda_ids : list Z)
  | Send (m : Metric)
  | Log (l : logline).

(** [Collect] itself, or the goroutine it started for a practice and a
    motive. *)
Inductive goroutine :=
  | Main
  | Worker (practice motive : Z).

Global Instance goroutine_eq_dec : EqDecision goroutine.
Proof. solve_decision. Defined.

(** What the upstream service and the clock answer during one scrape. *)
Record World := {
  catalog : HttpGet CIZRespone;
  availabilities : Z → Z → list Z → HttpGet AvailbilitiesResponse;
  Now : Z → Z → Z }.

(** ** The availability client ([GetAvailabilities], [CollectAvailability]) *)

Definition GetAvailabilities (w : World) (practice motive : Z)
    (aganda_ids : list Z) : list event * (AvailbilitiesResponse + error) :=
  ([Log (Calling practice motive aganda_ids); Get practice motive aganda_ids],
   fetch (availabilities w practice motive aganda_ids)).

(** [len(a.Slots) > 0]. *)
Definition hasSlots (a : Availability) : bool :=
  (0 <? length (Availability_Slots a))%nat.

(** The loop of lines 139-145: the date of the first window that has a
    slot, [""] (the initial value of [nextDate]) when the loop ends without
    a [break]. *)
Fixpoint firstWithSlots (avs : list Availability) : string :=
  match avs with
  | [] => ""
  | a :: rest =>
      if hasSlots a then Availability_Date a else firstWithSlots rest
  end.

(** Lines 138-148. *)
Definition nextDate (r : AvailbilitiesResponse) : string :=
  let nextDate := firstWithSlots (Availabilities r) in
  if String.eqb nextDate "" then NextSlot r else nextDate.

Definition nextSlotSample (center : Impfzentrum) (motiveName : string)
    (now nextSlot : Z) : Metric :=
  MustNewConstMetric nextSlotMetric GaugeValue
    (PrimFloat.div (Hours (Until now nextSlot)) (float64 24))
    [Name center; motiveName].

Definition CollectAvailability (w : World) (center : Impfzentrum)
    (motiveID : Z) (motiveName : string) : list event :=
  let '(called, r) := GetAvailabilities w (ID center) motiveID (AgendaIDs center) in
  match r with
  | inr err => called ++ [Log (FailedToGetAvailabilities (Name center) err)]
  | inl r =>
      let nextDate := nextDate r in
      if String.eqb nextDate "" then called ++ [Log (Printf r)]
      else match Parse nextDate with
           | None => called ++ [Log (Printf r); Log (FailedToParseNextSlot nextDate)]
           | Some nextSlot =>
               called ++ [Log (Printf r);
                          Send (nextSlotSample center motiveName (Now w (ID center) motiveID) nextSlot)]
           end
  end.

(** ** The catalogue client and the orchestrator ([Impfzentren], [Collect]) *)

Definition presence (center : Impfzentrum) (type disabled : string) : Metric :=
  MustNewConstMetric impfzentrumMetric GaugeValue (float64 1)
    [Name center; type; disabled].

Section Range.
(** The order in which [range] visits a map. *)
Variable range : ∀ A : Type, gmap Z A → list (Z * A).

Definition Impfzentren (resp : HttpGet CIZRespone) : outcome (list Impfzentrum) :=
  match fetch resp with
  | inr err => Fail err
  | inl ciz =>
      match classify ciz with
      | None => Panic
      | Some practiceByID => Return ((range _ practiceByID).*2)
      end
  end.

(** The two inner loops of [Collect] for one centre.  The events of a
    goroutine are listed where it is started; in a run they may come at
    any later point before [wg.Wait()] returns. *)
Definition collectCenter (w : World) (center : Impfzentrum)
    : list (goroutine * event) :=
  flat_map (λ '(motiveID, motiveName),
              (Main, Send (presence center motiveName "false"))
              :: ((λ e, (Worker (ID center) motiveID, e))
                    <$> CollectAvailability w center motiveID motiveName))
           (range _ (Vaccination center))
  ++ ((λ '(_, v), (Main, Send (presence center v "true")))
        <$> range _ (DisabledVaccination center)).

(** One scrape: the events up to the return of [wg.Wait()], or [None]
    when the call panics. *)
Definition Collect (w : World) : option (list (goroutine * event)) :=
  match Impfzentren (catalog w) with
  | Fail err => Some [(Main, Log (ErrorFetchingImpfzentren err))]
  | Panic => None
  | Return centers => Some (flat_map (collectCenter w) centers)
  end.
End Range.

(** The samples a goroutine sent in a run. *)
Definition sent (g : goroutine) (tr : list (goroutine * event)) : list Metric :=
  omap (λ '(g', e), match e with
                    | Send m => if decide (g' = g) then Some m else None
                    | _ => None
                    end) tr.

(** The requests made in a run. *)
Definition requested (tr : list (goroutine * event)) : list (Z * Z * list Z) :=
  omap (λ '(_, e), match e with
                   | Get p m a => Some (p, m, a)
                   | _ => None
                   end) tr.


(** ** Vocabulary of the statements *)

(** One of the two mappings of a centre. *)
Definition mapping (disabled : bool) (c : Impfzentrum) : gmap Z string :=
  if disabled then DisabledVaccination c else Vaccination c.

(** Agenda [a] belongs to practice [id], has ([disabled = true]) or has not
    a disable flag set, and lists the vaccination type [k]. *)
Definition references (id : Z) (disabled : bool) (k : Z) (a : Agenda) : Prop :=
  Agenda_PracticeID a = id ∧ disabling a = disabled ∧ k ∈ Agenda_VisitMotives a.

Definition referenced (agendas : list Agenda) (id : Z) (disabled : bool)
    (k : Z) : Prop :=
  Exists (references id disabled k) agendas.

Global Instance references_dec id disabled k a :
  Decision (references id disabled k a).
Proof. unfold references. apply _. Defined.

Global Instance referenced_dec agendas id disabled k :
  Decision (referenced agendas id disabled k).
Proof. unfold referenced. apply _. Defined.

(** The identifiers of the agendas of practice [id], in catalogue order. *)
Definition agendaIDsOf (id : Z) (agendas : list Agenda) : list Z :=
  Agenda_ID <$> filter (λ a, Agenda_PracticeID a = id) agendas.

(** Every agenda belongs to a practice that some place lists first. *)
Definition agendasMatch (ciz : CIZRespone) : Prop :=
  Forall (λ a, Agenda_PracticeID a ∈ firstPracticeIDs (Places ciz)) (Agendas ciz).

Global Instance agendasMatch_dec ciz : Decision (agendasMatch ciz).
Proof. unfold agendasMatch. apply _. Defined.

(** The ways a request can fail: no response, a status of 400 or more, a
    body that cannot be read, a body that is not the expected JSON. *)
Inductive fetchFails {A : Type} : HttpGet A → Prop :=
  | networkFailure err : fetchFails (RequestFailed err)
  | badStatus StatusCode Status Body :
      400 ≤ StatusCode → fetchFails (Response StatusCode Status Body)
  | readFailure StatusCode Status err :
      fetchFails (Response StatusCode Status (ReadFailed err))
  | decodeFailure StatusCode Status body err :
      fetchFails (Response StatusCode Status (Undecodable body err)).

(** The pair of centre [c] and type [k] fails: its request fails, or the
    date it resolves is not a date. *)
Definition pairFails (w : World) (c : Impfzentrum) (k : Z) : Prop :=
  fetchFails (availabilities w (ID c) k (AgendaIDs c))
  ∨ ∃ r, fetch (availabilities w (ID c) k (AgendaIDs c)) = inl r
      ∧ nextDate r ≠ "" ∧ Parse (nextDate r) = None.


(** ** Sample inputs *)

Definition place (name : string) (ids : list Z) : Place :=
  {| Place_Name := name; Place_PractiseIDs := ids |}.

Definition agenda (id practice : Z) (motives : list Z) (disabled temporary : bool)
    : Agenda :=
  {| Agenda_ID := id; Agenda_VisitMotives := motives; Agenda_PracticeID := practice;
     Agenda_BookingDisabled := disabled; Agenda_BookingTemporayDisabled := temporary |}.

Definition motive (id : Z) (name : string) : VisitMotive :=
  {| VisitMotive_ID := id; VisitMotive_Name := name |}.

Definition ok {A : Type} (a : A) : HttpGet A := Response 200 "200 OK" (Decoded a).

(** One centre, two types, the second without a name in the catalogue. *)
Definition arena : CIZRespone :=
  {| Places := [place "Arena" [1; 2]; place "Depot" []];
     Agendas := [agenda 10 1 [5; 6] false false];
     VisitMotives := [motive 5 "BioNTech"] |}.

(** An agenda of practice 7, which no place lists first. *)
Definition orphanAgenda : CIZRespone :=
  {| Places := [place "Arena" [1]];
     Agendas := [agenda 10 1 [5] false false; agenda 11 7 [5] false false];
     VisitMotives := [motive 5 "BioNTech"] |}.

(** Type 5 in a bookable agenda, then in a disabled one. *)
Definition enabledThenDisabled : CIZRespone :=
  {| Places := [place "Arena" [1]];
     Agendas := [agenda 10 1 [5] false false; agenda 11 1 [5] true false];
     VisitMotives := [motive 5 "BioNTech"] |}.

(** Type 5 in a disabled agenda, then in a bookable one. *)
Definition disabledThenEnabled : CIZRespone :=
  {| Places := [place "Arena" [1]];
     Agendas := [agenda 10 1 [5] false true; agenda 11 1 [5] false false];
     VisitMotives := [motive 5 "BioNTech"] |}.

(** Two places that list the same practice first. *)
Definition sharedPractice : CIZRespone :=
  {| Places := [place "Arena" [1]; place "Velodrom" [1]];
     Agendas := [agenda 10 1 [5] false false];
     VisitMotives := [motive 5 "BioNTech"] |}.

Definition response (next_slot : string) (windows : list Availability)
    : AvailbilitiesResponse :=
  {| Total := 0; Reason := ""; Message := ""; NumberOfFutureVacinations := 0;
     NextSlot := next_slot; Availabilities := windows |}.

Definition slot : Slot :=
  {| Slot_Start := "2024-01-12T08:00:00.000+01:00";
     Slot_End := "2024-01-12T08:05:00.000+01:00";
     Slot_Steps := []; Slot_AgendaID := 10 |}.

Definition window (date : string) (slots : list Slot) : Availability :=
  {| Availability_Date := date; Availability_Slots := slots |}.

(** The centre of practice 1 in the sample catalogues. *)
Definition arenaCenter (enabled disabled : gmap Z string) (agendas : list Z)
    : Impfzentrum :=
  {| ID := 1; Name := "Arena"; DisabledVaccination := disabled;
     Vaccination := enabled; AgendaIDs := agendas |}.

(** The centre that [enabledThenDisabled] and [disabledThenEnabled] give. *)
Definition bothMappings : Impfzentrum :=
  arenaCenter {[5 := "BioNTech"]} {[5 := "BioNTech"]} [10; 11].

(** The windows of the example of the specification. *)
Definition secondWindow : AvailbilitiesResponse :=
  response "" [window "2024-01-10" []; window "2024-01-12" [slot]].

(** A window that has a slot and no date, and a hint. *)
Definition undatedWindow : AvailbilitiesResponse :=
  response "2024-02-01" [window "" [slot]].

(** No window and a hint. *)
Definition hintOnly : AvailbilitiesResponse := response "2024-02-01" [].

(** Type 5 in a bookable agenda, type 6 in a disabled one. *)
Definition oneOfEach : CIZRespone :=
  {| Places := [place "Arena" [1]];
     Agendas := [agenda 10 1 [5] false false; agenda 11 1 [6] true false];
     VisitMotives := [motive 5 "BioNTech"; motive 6 "Moderna"] |}.

(** A world in which every availability request gets the same answer and
    every clock reads the same instant. *)
Definition world (ciz : HttpGet CIZRespone)
    (answer : HttpGet AvailbilitiesResponse) (now : Z) : World :=
  {| catalog := ciz; availabilities := λ _ _ _, answer; Now := λ _ _, now |}.

(** The order of [map_to_list], one of the orders [range] may take. *)
Definition inOrder : ∀ A : Type, gmap Z A → list (Z * A) := λ A, map_to_list.

(** ** The descriptors ([Describe], lines 83-96) *)

(** What [prometheus.NewDesc] is given: the name, the help text and the
    names of the labels. *)
Record PromDesc := NewDesc {
  fqName : string;
  help : string;
  variableLabels : list string }.

(** The descriptor a sample names, as [Describe] builds it. *)
Definition descriptor (d : Desc) : PromDesc :=
  match d with
  | impfzentrumMetric =>
      NewDesc "impfzentrum" "Zeigt Impfzentren und Art der Impfung"
        ["name"; "type"; "disabled"]
  | nextSlotMetric =>
      NewDesc "impfzentrum_next_slot_duration_days" "Naechster verfuegbarer Termin"
        ["name"; "type"]
  end.

(** The two fields of the collector; [None] is the nil pointer. *)
Record ImpfzentrenCollector := {
  cl_impfzentrumMetric : option PromDesc;
  cl_nextSlotMetric : option PromDesc }.

(** [Describe]: the collector afterwards and what was sent on [ch]. *)
Definition Describe (c : ImpfzentrenCollector)
    : ImpfzentrenCollector * list (option PromDesc) :=
  let c :=
    match cl_impfzentrumMetric c with
    | None =>
        {| cl_impfzentrumMetric := Some (descriptor impfzentrumMetric);
           cl_nextSlotMetric := Some (descriptor nextSlotMetric) |}
    | Some _ => c
    end in
  (c, [cl_impfzentrumMetric c]).

(** The collector as [main] registers it. *)
Definition zeroCollector : ImpfzentrenCollector :=
  {| cl_impfzentrumMetric := None; cl_nextSlotMetric := None |}.

(** The centre of [oneOfEach], a world around it and its scrape. *)
Definition oneOfEachCenter : Impfzentrum :=
  arenaCenter {[5 := "BioNTech"]} {[6 := "Moderna"]} [10; 11].

Definition sampleWorld : World :=
  world (ok oneOfEach) (ok hintOnly) (Date 2024 1 10).

Definition sampleRun : list (goroutine * event) :=
  default [] (Collect inOrder sampleWorld).

(** Another order [range] may take. *)
Definition backwards : ∀ A : Type, gmap Z A → list (Z * A) :=
  λ A m, reverse (map_to_list m).

(** ** The date of a request ([time.Now().Format], line 171) *)

Definition digitChar (n : Z) : ascii := ascii_of_N (Z.to_N (48 + n)).

(** [t.Format("2006-01-02")] for an instant whose date, in the location of
    [t], is year-month-day: the year on four digits (years 0 to 9999), the
    month and the day on two. *)
Definition Format (year month day : Z) : string :=
  string_of_list_ascii
    [digitChar (year / 1000 mod 10); digitChar (year / 100 mod 10);
     digitChar (year / 10 mod 10); digitChar (year mod 10); "-"%char;
     digitChar (month / 10 mod 10); digitChar (month mod 10); "-"%char;
     digitChar (day / 10 mod 10); digitChar (day mod 10)].

(** A day of the calendar, in the years [Format] writes on four digits. *)
Definition validDate (year month day : Z) : Prop :=
  0 ≤ year ≤ 9999 ∧ 1 ≤ month ≤ 12 ∧ 1 ≤ day ≤ daysIn month year.


(** ** The request of [GetAvailabilities] (lines 160-180) *)

(** [strconv.Itoa]. *)
Definition Itoa (i : Z) : string := pretty i.

(** [strings.Join]. *)
Definition Join (elems : list string) (sep : string) : string :=
  String.concat sep elems.

(** [shouldEscape(c, encodeQueryComponent)] of [net/url]: letters, digits
    and the four marks are left alone. *)
Definition shouldEscape (c : ascii) : bool :=
  let n := N_of_ascii c in
  if ((97 <=? n) && (n <=? 122) || (65 <=? n) && (n <=? 90)
      || (48 <=? n) && (n <=? 57))%N
  then false
  else match c with
       | "-" | "_" | "." | "~" => false
       | _ => true
       end%char.

Definition upperhex (n : N) : ascii :=
  nth (N.to_nat n) (list_ascii_of_string "0123456789ABCDEF") "0"%char.

(** [url.QueryEscape]: a space becomes [+], every other byte that must be
    escaped becomes [%XX]. *)
Fixpoint QueryEscape (s : string) : string :=
  match s with
  | EmptyString => EmptyString
  | String c s' =>
      if Ascii.eqb c " " then String "+" (QueryEscape s')
      else if shouldEscape c then
        String "%" (String (upperhex (N_of_ascii c / 16))
                      (String (upperhex (N_of_ascii c mod 16)) (QueryEscape s')))
      else String c (QueryEscape s')
  end.

(** [url.Values.Add]. *)
Definition Values_Add (v : gmap string (list string)) (key value : string)
    : gmap string (list string) :=
  <[key := default [] (v !! key) ++ [value]]> v.

(** [url.Values.Encode]: the keys sorted, [key=value] for every value of
    every key, [&] before each but the first. *)
Definition Values_Encode (v : gmap string (list string)) : string :=
  foldl (λ buf k,
           foldl (λ buf value,
                    (if (0 <? String.length buf)%nat then buf +:+ "&" else buf)
                    +:+ QueryEscape k +:+ "=" +:+ QueryEscape value)
                 buf (default [] (v !! k)))
        "" (merge_sort String.le (map_to_list v).*1).

(** The parameters of lines 166-177, [today] being
    [time.Now().Format("2006-01-02")]. *)
Definition availabilitiesParams (today : string) (practice motive : Z)
    (aganda_ids : list Z) : gmap string (list string) :=
  let aids := Itoa <$> aganda_ids in
  let params := ∅ in
  let params := Values_Add params "start_date" today in
  let params := Values_Add params "visit_motive_ids" (Itoa motive) in
  let params := Values_Add params "agenda_ids" (Join aids "-") in
  let params := Values_Add params "insurance_sector" "public" in
  let params := Values_Add params "practice_ids" (Itoa practice) in
  let params := Values_Add params "destroy_temporary" "true" in
  Values_Add params "limit" "4".

(** [u.String()] after [u.RawQuery = params.Encode()]. *)
Definition availabilitiesURL (today : string) (practice motive : Z)
    (aganda_ids : list Z) : string :=
  "https://www.doctolib.de/availabilities.json" +:+ "?"
  +:+ Values_Encode (availabilitiesParams today practice motive aganda_ids).

(** The pairs of a key and a value that [Encode] writes, in its order. *)
Definition Values_pairs (v : gmap string (list string)) : list (string * string) :=
  flat_map (λ k, (λ value, (k, value)) <$> default [] (v !! k))
           (merge_sort String.le (map_to_list v).*1).

(** No byte of the string has to be escaped. *)
Fixpoint plain (s : string) : bool :=
  match s with
  | EmptyString => true
  | String c s' => negb (shouldEscape c) && plain s'
  end.

(** Every byte of the string is one that needs no escape, a [%] or a [+]. *)
Fixpoint escaped (s : string) : bool :=
  match s with
  | EmptyString => true
  | String c s' =>
      (negb (shouldEscape c) || Ascii.eqb c "%" || Ascii.eqb c "+") && escaped s'
  end.

(** A line that reports the failure of a pair of centre [c]. *)
Definition failureLine (c : Impfzentrum) (l : logline) : Prop :=
  match l with
  | FailedToGetAvailabilities name _ => name = Name c
  | FailedToParseNextSlot _ => True
  | _ => False
  end.

(** ** The helper [unique] (lines 252-262) *)

(** One turn of the loop: [keys] and [list] before and after [entry]. *)
Definition uniqueStep (st : gmap string bool * list string) (entry : string)
    : gmap string bool * list string :=
  match st.1 !! entry with
  | Some _ => st
  | None => (<[entry := true]> st.1, st.2 ++ [entry])
  end.

Definition unique (slice : list string) : list string :=
  (foldl uniqueStep (∅, []) slice).2.

(** * Properties *)

(** ** The classifier *)

Section classifier.
Implicit Types (ps : list Place) (names : gmap Z string).
Implicit Types (m : gmap Z Impfzentrum) (c : Impfzentrum) (a : Agenda).

Lemma practiceByID_snoc ps p :
  practiceByID (ps ++ [p]) = addPlace (practiceByID ps) p.
Proof. unfold practiceByID. by rewrite foldl_app. Qed.

Lemma firstPracticeIDs_snoc ps p :
  firstPracticeIDs (ps ++ [p])
  = firstPracticeIDs ps ++ option_list (head (Place_PractiseIDs p)).
Proof.
  unfold firstPracticeIDs. rewrite omap_app. simpl.
  by destruct (head (Place_PractiseIDs p)).
Qed.

Lemma practiceByID_is_Some ps id :
  is_Some (practiceByID ps !! id) ↔ id ∈ firstPracticeIDs ps.
Proof.
  induction ps as [|p ps IH] using rev_ind.
  - unfold practiceByID; simpl. rewrite lookup_empty, is_Some_alt.
    split; [done | by intros ?%elem_of_nil].
  - rewrite practiceByID_snoc, firstPracticeIDs_snoc, elem_of_app, <- IH.
    unfold addPlace. destruct (Place_PractiseIDs p) as [|id' ?]; simpl.
    + rewrite elem_of_nil. tauto.
    + rewrite list_elem_of_singleton.
      destruct (decide (id' = id)) as [->|Hne].
      * rewrite lookup_insert_eq. split; [by right | by eauto].
      * rewrite lookup_insert_ne by done. split; [by left | intros [|]; congruence].
Qed.

(** The centre of a practice is made from the last place that lists the
    practice first. *)
Lemma practiceByID_lookup ps id c :
  practiceByID ps !! id = Some c →
  ∃ ps1 p ps2, ps = ps1 ++ p :: ps2
    ∧ head (Place_PractiseIDs p) = Some id
    ∧ (id ∉ firstPracticeIDs ps2)
    ∧ c = newImpfzentrum (Place_Name p) id.
Proof.
  induction ps as [|p ps IH] using rev_ind.
  - unfold practiceByID; simpl. by rewrite lookup_empty.
  - rewrite practiceByID_snoc. unfold addPlace.
    destruct (Place_PractiseIDs p) as [|id' ids] eqn:Hp.
    + intros (ps1 & p0 & ps2 & -> & ? & ? & ?)%IH.
      exists ps1, p0, (ps2 ++ [p]). rewrite <- app_assoc. split_and!; try done.
      rewrite firstPracticeIDs_snoc, Hp; simpl. by rewrite app_nil_r.
    + destruct (decide (id' = id)) as [->|Hne].
      * rewrite lookup_insert_eq. intros [= <-].
        exists ps, p, []. rewrite Hp. split_and!; try done.
        by intros ?%elem_of_nil.
      * rewrite lookup_insert_ne by done.
        intros (ps1 & p0 & ps2 & -> & ? & ? & ?)%IH.
        exists ps1, p0, (ps2 ++ [p]). rewrite <- app_assoc. split_and!; try done.
        rewrite firstPracticeIDs_snoc, Hp; simpl.
        rewrite elem_of_app, list_elem_of_singleton. intros [|]; congruence.
Qed.

Lemma foldl_setMotive_fields names a ks c :
  ID (foldl (setMotive names a) c ks) = ID c
  ∧ Name (foldl (setMotive names a) c ks) = Name c
  ∧ AgendaIDs (foldl (setMotive names a) c ks) = AgendaIDs c.
Proof.
  revert c. induction ks as [|k ks IH]; intros c; simpl; [done|].
  destruct (IH (setMotive names a c k)) as (-> & -> & ->).
  unfold setMotive. by destruct (disabling a).
Qed.

Lemma setMotive_mapping names a c k0 disabled :
  mapping disabled (setMotive names a c k0)
  = if decide (disabling a = disabled)
    then <[k0 := index names k0]> (mapping disabled c)
    else mapping disabled c.
Proof.
  unfold setMotive, mapping.
  destruct (disabling a), disabled; simpl; first [done | by destruct (decide _)].
Qed.

(** The inner loop writes the resolved name of every listed type into the
    mapping chosen by the agenda's flags and leaves the other mapping
    alone. *)
Lemma foldl_setMotive_mapping names a ks c disabled k :
  mapping disabled (foldl (setMotive names a) c ks) !! k
  = if decide (disabling a = disabled ∧ k ∈ ks) then Some (index names k)
    else mapping disabled c !! k.
Proof.
  revert c. induction ks as [|k0 ks IH]; intros c; simpl.
  - rewrite decide_False; [done|]. by intros [_ ?%elem_of_nil].
  - rewrite IH, setMotive_mapping. clear IH.
    destruct (decide (disabling a = disabled)) as [Hd|Hd].
    + destruct (decide (k ∈ ks)) as [Hk|Hk].
      * rewrite !decide_True; [done| |done]. split; [done | by right].
      * rewrite (decide_False (P := _ ∧ k ∈ ks)) by tauto.
        destruct (decide (k = k0)) as [->|Hne].
        -- rewrite lookup_insert_eq, decide_True; [done|]. split; [done | by left].
        -- rewrite lookup_insert_ne by done. rewrite decide_False; [done|].
           intros [_ [?|?]%elem_of_cons]; done.
    + rewrite !decide_False; tauto.
Qed.

Lemma addAgenda_Some names m a m' :
  addAgenda names m a = Some m' →
  ∃ c, m !! Agenda_PracticeID a = Some c
    ∧ m' = <[Agenda_PracticeID a :=
               foldl (setMotive names a) (appendAgendaID c (Agenda_ID a))
                     (Agenda_VisitMotives a)]> m.
Proof.
  unfold addAgenda. destruct (m !! Agenda_PracticeID a) as [c|]; [|done].
  intros [= <-]. eauto.
Qed.

Lemma referenced_cons a agendas id disabled k :
  referenced (a :: agendas) id disabled k
  ↔ references id disabled k a ∨ referenced agendas id disabled k.
Proof. unfold referenced. apply Exists_cons. Qed.

Lemma referenced_elem_of agendas id disabled k :
  referenced agendas id disabled k
  ↔ ∃ a, a ∈ agendas ∧ references id disabled k a.
Proof. unfold referenced. apply Exists_exists. Qed.

(** What the agenda loop does to the centre of one practice. *)
Lemma agendaLoop_lookup names agendas : ∀ m m' id c',
  agendaLoop names m agendas = Some m' → m' !! id = Some c' →
  ∃ c, m !! id = Some c ∧ ID c' = ID c ∧ Name c' = Name c
    ∧ AgendaIDs c' = AgendaIDs c ++ agendaIDsOf id agendas
    ∧ ∀ disabled k,
        mapping disabled c' !! k
        = if decide (referenced agendas id disabled k)
          then Some (index names k) else mapping disabled c !! k.
Proof.
  induction agendas as [|a agendas IH]; intros m m' id c'; simpl.
  - intros [= <-] Hc. exists c'. split_and!; try done.
    unfold agendaIDsOf; simpl. by rewrite app_nil_r.
  - destruct (addAgenda names m a) as [m1|] eqn:Ha; [|done].
    apply addAgenda_Some in Ha as (c0 & Hc0 & ->).
    intros Hloop Hc'.
    destruct (IH _ _ _ _ Hloop Hc') as (c1 & Hc1 & HID & HName & HAg & Hmap).
    destruct (decide (Agenda_PracticeID a = id)) as [Heq|Hne].
    + subst id. rewrite lookup_insert_eq in Hc1. injection Hc1 as <-.
      destruct (foldl_setMotive_fields names a (Agenda_VisitMotives a)
                  (appendAgendaID c0 (Agenda_ID a))) as (E1 & E2 & E3).
      simpl in E1, E2, E3.
      exists c0. split_and!; [done | congruence | congruence | |].
      * rewrite HAg, E3. unfold agendaIDsOf.
        rewrite filter_cons_True by done. simpl. by rewrite <- app_assoc.
      * intros disabled k. rewrite Hmap, foldl_setMotive_mapping.
        assert (mapping disabled (appendAgendaID c0 (Agenda_ID a))
                = mapping disabled c0) as -> by by destruct disabled.
        destruct (decide (referenced agendas (Agenda_PracticeID a) disabled k)).
        -- rewrite decide_True; [done|]. apply referenced_cons. by right.
        -- destruct (decide (disabling a = disabled ∧ k ∈ Agenda_VisitMotives a))
             as [[??]|Hn].
           ++ rewrite decide_True; [done|]. apply referenced_cons. by left.
           ++ rewrite decide_False; [done|].
              intros [(_ & ? & ?)|?]%referenced_cons; tauto.
    + rewrite lookup_insert_ne in Hc1 by done.
      exists c1. split_and!; try done.
      * rewrite HAg. unfold agendaIDsOf. by rewrite filter_cons_False.
      * intros disabled k. rewrite Hmap.
        destruct (decide (referenced agendas id disabled k)).
        -- rewrite decide_True; [done|]. apply referenced_cons. by right.
        -- rewrite decide_False; [done|].
           intros [(? & _)|?]%referenced_cons; done.
Qed.

(** The loop gets through exactly when every agenda finds its centre. *)
Lemma agendaLoop_is_Some names agendas : ∀ m,
  is_Some (agendaLoop names m agendas)
  ↔ ∀ a, a ∈ agendas → is_Some (m !! Agenda_PracticeID a).
Proof.
  induction agendas as [|a agendas IH]; intros m; simpl.
  - split; [by intros _ a ?%elem_of_nil | by eauto].
  - unfold addAgenda.
    destruct (m !! Agenda_PracticeID a) as [c|] eqn:Hc.
    + rewrite IH. split.
      * intros H a' [->|Ha']%elem_of_cons; [by eauto|].
        specialize (H a' Ha').
        destruct (decide (Agenda_PracticeID a = Agenda_PracticeID a')) as [<-|].
        -- by eauto.
        -- by rewrite lookup_insert_ne in H.
      * intros H a' Ha'.
        destruct (decide (Agenda_PracticeID a = Agenda_PracticeID a')) as [<-|].
        -- rewrite lookup_insert_eq. by eauto.
        -- rewrite lookup_insert_ne by done. apply H. by right.
    + split; [by intros [? [=]] |].
      intros H. specialize (H a (list_elem_of_here _ _)). by rewrite Hc in H.
Qed.

(** The agenda loop neither adds nor removes a centre. *)
Lemma agendaLoop_keeps names agendas : ∀ m m' id,
  agendaLoop names m agendas = Some m' →
  is_Some (m !! id) → is_Some (m' !! id).
Proof.
  induction agendas as [|a agendas IH]; intros m m' id; simpl.
  - by intros [= <-].
  - destruct (addAgenda names m a) as [m1|] eqn:Ha; [|done].
    apply addAgenda_Some in Ha as (c0 & Hc0 & ->).
    intros Hloop Hid. apply (IH _ _ _ Hloop).
    destruct (decide (Agenda_PracticeID a = id)) as [<-|].
    + rewrite lookup_insert_eq. by eauto.
    + by rewrite lookup_insert_ne.
Qed.



Lemma classify_is_Some ciz : is_Some (classify ciz) ↔ agendasMatch ciz.
Proof.
  unfold classify, agendasMatch. rewrite agendaLoop_is_Some, Forall_forall.
  by setoid_rewrite practiceByID_is_Some.
Qed.

Lemma classify_dom ciz m id :
  classify ciz = Some m →
  is_Some (m !! id) ↔ id ∈ firstPracticeIDs (Places ciz).
Proof.
  unfold classify. intros Hm. rewrite <- practiceByID_is_Some. split.
  - intros [c' Hc'].
    destruct (agendaLoop_lookup _ _ _ _ _ _ Hm Hc') as (c & -> & _). by eauto.
  - by apply agendaLoop_keeps with (1 := Hm).
Qed.

(** The centre stored for a practice, field by field. *)
Lemma classify_lookup ciz m id c :
  classify ciz = Some m → m !! id = Some c →
  ID c = id
  ∧ (∃ ps1 p ps2, Places ciz = ps1 ++ p :: ps2
       ∧ head (Place_PractiseIDs p) = Some id
       ∧ (id ∉ firstPracticeIDs ps2)
       ∧ Name c = Place_Name p)
  ∧ AgendaIDs c = agendaIDsOf id (Agendas ciz)
  ∧ ∀ disabled k v,
      mapping disabled c !! k = Some v
      ↔ v = index (motiveByID (VisitMotives ciz)) k
        ∧ referenced (Agendas ciz) id disabled k.
Proof.
  unfold classify. intros Hm Hc.
  destruct (agendaLoop_lookup _ _ _ _ _ _ Hm Hc)
    as (c0 & Hc0 & HID & HName & HAg & Hmap).
  apply practiceByID_lookup in Hc0 as (ps1 & p & ps2 & Hps & Hp & Hlast & ->).
  simpl in *. split_and!; [done | by eauto 10 | done |].
  intros disabled k v. rewrite Hmap.
  assert (mapping disabled (newImpfzentrum (Place_Name p) id) !! k = None)
    as -> by by destruct disabled.
  destruct (decide (referenced (Agendas ciz) id disabled k)).
  - split; [by intros [= <-] | by intros [-> _]].
  - split; [done | by intros [_ ?]].
Qed.
End classifier.

(** ** Events of a run *)

Lemma elem_of_flat_map {A B} (f : A → list B) (l : list A) (y : B) :
  y ∈ flat_map f l ↔ ∃ x, x ∈ l ∧ y ∈ f x.
Proof.
  rewrite list_elem_of_In, in_flat_map.
  by setoid_rewrite list_elem_of_In.
Qed.


Lemma elem_of_sent g tr m : m ∈ sent g tr ↔ (g, Send m) ∈ tr.
Proof.
  unfold sent. rewrite list_elem_of_omap. split.
  - intros ([g' e] & Hin & H). destruct e; try done.
    destruct (decide (g' = g)) as [->|]; [|done]. by injection H as ->.
  - intros Hin. exists (g, Send m). split; [done|]. by rewrite decide_True.
Qed.

Lemma elem_of_requested tr p k a :
  (p, k, a) ∈ requested tr ↔ ∃ g, (g, Get p k a) ∈ tr.
Proof.
  unfold requested. rewrite list_elem_of_omap. split.
  - intros ([g e] & Hin & H). destruct e; try done.
    injection H as -> -> ->. by eauto.
  - intros [g Hin]. by exists (g, Get p k a).
Qed.


(** ** The availability client *)

Lemma fetch_fails {A} (resp : HttpGet A) :
  fetchFails resp ↔ ∃ err, fetch resp = inr err.
Proof.
  split.
  - intros [err|code status body Hcode|code status err|code status body err]; simpl;
      try (destruct (399 <? _); by eauto).
    + by eauto.
    + rewrite (proj2 (Z.ltb_lt 399 code)) by lia. by eauto.
  - destruct resp as [err|code status body]; simpl; [intros _; constructor|].
    destruct (Z.ltb_spec 399 code); [intros _; constructor; lia|].
    destruct body; intros [e He];
      [apply readFailure | apply decodeFailure | done].
Qed.

(** Membership of an event in a list of events written out. *)
Ltac events_in H :=
  simpl in H; rewrite ?elem_of_cons, ?elem_of_nil in H;
  destruct_or?; simplify_eq; try done.

Lemma elem_of_CollectAvailability_Send w c k n m :
  Send m ∈ CollectAvailability w c k n ↔
  ∃ r t, fetch (availabilities w (ID c) k (AgendaIDs c)) = inl r
    ∧ nextDate r ≠ "" ∧ Parse (nextDate r) = Some t
    ∧ m = nextSlotSample c n (Now w (ID c) k) t.
Proof.
  unfold CollectAvailability, GetAvailabilities.
  destruct (fetch (availabilities w (ID c) k (AgendaIDs c))) as [r|err].
  - destruct (String.eqb_spec (nextDate r) "") as [He|He].
    + split; [intros H; events_in H | by intros (? & ? & [= <-] & ? & _)].
    + destruct (Parse (nextDate r)) as [t|] eqn:Hp.
      * split.
        -- intros H; events_in H. by exists r, t.
        -- intros (? & ? & [= <-] & _ & Ht & ->). simplify_eq. simpl.
           rewrite !elem_of_cons. tauto.
      * split; [intros H; events_in H |].
        intros (? & ? & [= <-] & _ & Ht & _). by simplify_eq.
  - split; [intros H; events_in H | by intros (? & ? & ? & _)].
Qed.

Lemma elem_of_CollectAvailability_Get w c k n p k' a :
  Get p k' a ∈ CollectAvailability w c k n ↔
  p = ID c ∧ k' = k ∧ a = AgendaIDs c.
Proof.
  unfold CollectAvailability, GetAvailabilities.
  split.
  - intros H.
    destruct (fetch (availabilities w (ID c) k (AgendaIDs c))) as [r|err];
      [destruct (String.eqb (nextDate r) ""); [|destruct (Parse (nextDate r))]|];
      events_in H.
  - intros (-> & -> & ->).
    destruct (fetch (availabilities w (ID c) k (AgendaIDs c))) as [r|err];
      [destruct (String.eqb (nextDate r) ""); [|destruct (Parse (nextDate r))]|];
      simpl; rewrite !elem_of_cons; tauto.
Qed.

(** ** One scrape, for every order of iteration *)

Section scrape.
Variable range : ∀ A : Type, gmap Z A → list (Z * A).
Hypothesis range_perm : ∀ (A : Type) (m : gmap Z A), range A m ≡ₚ map_to_list m.

Lemma elem_of_range {A} (m : gmap Z A) k v :
  (k, v) ∈ range A m ↔ m !! k = Some v.
Proof. rewrite range_perm. apply elem_of_map_to_list. Qed.

Lemma Impfzentren_Return resp centers :
  Impfzentren range resp = Return centers ↔
  ∃ ciz m, fetch resp = inl ciz ∧ classify ciz = Some m
    ∧ centers = (range _ m).*2.
Proof.
  unfold Impfzentren. split.
  - destruct (fetch resp) as [ciz|]; [|done].
    destruct (classify ciz) as [m|] eqn:Hm; [|done]. intros [= <-].
    by exists ciz, m.
  - by intros (ciz & m & -> & -> & ->).
Qed.

Lemma Impfzentren_Panic resp ciz :
  fetch resp = inl ciz → ¬ agendasMatch ciz → Impfzentren range resp = Panic.
Proof.
  intros Hf Hno. unfold Impfzentren. rewrite Hf.
  destruct (classify ciz) as [m|] eqn:Hm; [|done].
  destruct Hno. apply classify_is_Some. by eauto.
Qed.

Lemma elem_of_centers ciz m c :
  classify ciz = Some m → c ∈ (range _ m).*2 ↔ m !! ID c = Some c.
Proof.
  intros Hm. rewrite list_elem_of_fmap. split.
  - intros ([k c'] & -> & Hin%elem_of_range). simpl.
    by destruct (classify_lookup _ _ _ _ Hm Hin) as [-> _].
  - intros Hc. exists (ID c, c). split; [done|]. by apply elem_of_range.
Qed.

Lemma centers_IDs ciz m :
  classify ciz = Some m → ID <$> (range _ m).*2 = (range _ m).*1.
Proof.
  intros Hm. rewrite <- list_fmap_compose. apply list_fmap_ext.
  intros i [k c] Hi. simpl.
  apply list_elem_of_lookup_2, elem_of_range in Hi.
  by destruct (classify_lookup _ _ _ _ Hm Hi) as [-> _].
Qed.

(** No two centres of a catalogue have the same identifier. *)
Lemma centers_NoDup ciz m :
  classify ciz = Some m → NoDup (ID <$> (range _ m).*2).
Proof.
  intros Hm. rewrite (centers_IDs _ _ Hm), range_perm.
  apply NoDup_fst_map_to_list.
Qed.

Lemma centers_same_ID ciz m c c' :
  classify ciz = Some m → c ∈ (range _ m).*2 → c' ∈ (range _ m).*2 →
  ID c' = ID c → c' = c.
Proof.
  intros Hm Hc%(elem_of_centers _ _ _ Hm) Hc'%(elem_of_centers _ _ _ Hm) Heq.
  rewrite Heq in Hc'. congruence.
Qed.

Lemma mapping_dom ciz m c disabled k :
  classify ciz = Some m → m !! ID c = Some c →
  k ∈ dom (mapping disabled c) ↔ referenced (Agendas ciz) (ID c) disabled k.
Proof.
  intros Hm Hc. destruct (classify_lookup _ _ _ _ Hm Hc) as (_ & _ & _ & Hmap).
  rewrite elem_of_dom. split.
  - intros [v Hv]. by apply Hmap in Hv as [_ ?].
  - intros Href. eexists. by apply Hmap.
Qed.

Lemma Collect_Return w centers :
  Impfzentren range (catalog w) = Return centers →
  Collect range w = Some (flat_map (collectCenter range w) centers).
Proof. unfold Collect. by intros ->. Qed.

(** A scrape panics exactly when the catalogue arrives and has an agenda
    without a centre. *)
Lemma Collect_None w :
  Collect range w = None
  ↔ ∃ ciz, fetch (catalog w) = inl ciz ∧ ¬ agendasMatch ciz.
Proof.
  unfold Collect, Impfzentren.
  destruct (fetch (catalog w)) as [ciz|err].
  - destruct (classify ciz) as [m|] eqn:Hm.
    + split; [done|]. intros (? & [= <-] & Hno). destruct Hno.
      apply classify_is_Some. by eauto.
    + split; [|done]. intros _. exists ciz. split; [done|].
      intros [? ?]%classify_is_Some. congruence.
  - split; [done|]. by intros (? & ? & _).
Qed.

(** The events of one centre: a presence sample and a goroutine for every
    entry of the enabled mapping, a presence sample for every entry of the
    disabled mapping. *)
Lemma elem_of_collectCenter w c g e :
  (g, e) ∈ collectCenter range w c ↔
  (∃ k n, Vaccination c !! k = Some n
     ∧ ((g = Main ∧ e = Send (presence c n "false"))
        ∨ (g = Worker (ID c) k ∧ e ∈ CollectAvailability w c k n)))
  ∨ (∃ k v, DisabledVaccination c !! k = Some v
       ∧ g = Main ∧ e = Send (presence c v "true")).
Proof.
  unfold collectCenter.
  rewrite elem_of_app, elem_of_flat_map, list_elem_of_fmap. split.
  - intros [([k n] & Hkn%elem_of_range & Hin)|([k v] & Heq & Hkv%elem_of_range)].
    + left. exists k, n. split; [done|].
      apply elem_of_cons in Hin as [[= -> ->]|Hin]; [by left|].
      right. by apply list_elem_of_fmap in Hin as (e' & [= -> ->] & He').
    + right. exists k, v. by injection Heq as -> ->.
  - intros [(k & n & Hkn & H)|(k & v & Hkv & -> & ->)].
    + left. exists (k, n). split; [by apply elem_of_range|].
      destruct H as [[-> ->]|[-> He]]; [by left|].
      right. apply list_elem_of_fmap. by exists e.
    + right. exists (k, v). split; [done | by apply elem_of_range].
Qed.

(** C8 (as the code has it): when every agenda belongs to a practice that
    some place lists first, the catalogue gives exactly one Center for every
    distinct first practice identifier: no two Centers share an identifier,
    the identifiers of the Centers are the first practice identifiers of the
    places that have one, each Center carries the name of the last place
    that lists its identifier first, and a place without practice
    identifiers gives nothing.  When the first practice identifiers are
    pairwise distinct this is one Center per place. *)
Theorem C8_one_center_per_first_practice resp ciz :
  fetch resp = inl ciz → agendasMatch ciz →
  ∃ centers, Impfzentren range resp = Return centers
    ∧ NoDup (ID <$> centers)
    ∧ (∀ id, id ∈ ID <$> centers ↔ id ∈ firstPracticeIDs (Places ciz))
    ∧ (∀ c, c ∈ centers →
         ∃ ps1 p ps2, Places ciz = ps1 ++ p :: ps2
           ∧ head (Place_PractiseIDs p) = Some (ID c)
           ∧ (ID c ∉ firstPracticeIDs ps2)
           ∧ Name c = Place_Name p)
    ∧ (NoDup (firstPracticeIDs (Places ciz)) →
         ID <$> centers ≡ₚ firstPracticeIDs (Places ciz)).
Proof.
  intros Hf [m Hm]%classify_is_Some.
  assert (∀ id, id ∈ ID <$> (range _ m).*2 ↔ id ∈ firstPracticeIDs (Places ciz))
    as Hids.
  { intros id. rewrite <- (classify_dom _ _ _ Hm), list_elem_of_fmap. split.
    - intros (c & -> & Hc%(elem_of_centers _ _ _ Hm)). by eauto.
    - intros [c Hc]. exists c.
      destruct (classify_lookup _ _ _ _ Hm Hc) as [<- _].
      split; [done|]. by apply (elem_of_centers _ _ _ Hm). }
  exists ((range _ m).*2). split_and!.
  - apply Impfzentren_Return. by exists ciz, m.
  - by apply centers_NoDup with ciz.
  - done.
  - intros c Hc%(elem_of_centers _ _ _ Hm).
    by destruct (classify_lookup _ _ _ _ Hm Hc) as (_ & ? & _).
  - intros Hnd. apply NoDup_Permutation; [by apply centers_NoDup with ciz|done..].
Qed.

(** C2 (as the code has it): for every Center produced by classification, a
    vaccination-type id is in the enabled mapping exactly when a
    non-disabling agenda of the center lists it and in the disabled mapping
    exactly when a disabling agenda of the center lists it; so the two
    mappings have a type id in common exactly when agendas of both kinds
    list it, and are disjoint exactly when no type id is listed by both
    kinds. *)
Theorem C2_overlap_iff_both_kinds resp centers c :
  Impfzentren range resp = Return centers → c ∈ centers →
  ∃ ciz, fetch resp = inl ciz
    ∧ (∀ disabled k,
         k ∈ dom (mapping disabled c) ↔ referenced (Agendas ciz) (ID c) disabled k)
    ∧ (∀ k, k ∈ dom (Vaccination c) ∧ k ∈ dom (DisabledVaccination c)
            ↔ referenced (Agendas ciz) (ID c) false k
              ∧ referenced (Agendas ciz) (ID c) true k)
    ∧ (dom (Vaccination c) ## dom (DisabledVaccination c)
       ↔ ∀ k, ¬ (referenced (Agendas ciz) (ID c) false k
                 ∧ referenced (Agendas ciz) (ID c) true k)).
Proof.
  intros (ciz & m & Hf & Hm & ->)%Impfzentren_Return Hc%(elem_of_centers _ _ _ Hm).
  exists ciz.
  pose proof (λ disabled k, mapping_dom ciz m c disabled k Hm Hc) as Hdom.
  split_and!; [done | done | |].
  - intros k. split; intros [H1 H2].
    + exact (conj (proj1 (Hdom false k) H1) (proj1 (Hdom true k) H2)).
    + exact (conj (proj2 (Hdom false k) H1) (proj2 (Hdom true k) H2)).
  - rewrite elem_of_disjoint. split.
    + intros Hdisj k [H1 H2].
      exact (Hdisj k (proj2 (Hdom false k) H1) (proj2 (Hdom true k) H2)).
    + intros Hno k H1 H2.
      exact (Hno k (conj (proj1 (Hdom false k) H1) (proj1 (Hdom true k) H2))).
Qed.

(** C3 (as the code has it): when every agenda belongs to a practice that
    some place lists first, a vaccination-type id listed by a non-disabling
    agenda of a center is in that center's enabled mapping, under the name
    the catalogue resolves it to; it is absent from the disabled mapping
    exactly when no agenda of that center with a disable flag set lists it,
    whether that agenda comes earlier or later. *)
Theorem C3_enabled_whatever_the_order resp ciz a k :
  fetch resp = inl ciz → agendasMatch ciz →
  a ∈ Agendas ciz → disabling a = false → k ∈ Agenda_VisitMotives a →
  ∃ centers c, Impfzentren range resp = Return centers
    ∧ c ∈ centers ∧ ID c = Agenda_PracticeID a
    ∧ Vaccination c !! k = Some (index (motiveByID (VisitMotives ciz)) k)
    ∧ (k ∉ dom (DisabledVaccination c)
       ↔ ¬ referenced (Agendas ciz) (ID c) true k).
Proof.
  intros Hf Hmatch Ha Hdis Hk.
  destruct (proj2 (classify_is_Some ciz) Hmatch) as [m Hm].
  assert (is_Some (m !! Agenda_PracticeID a)) as [c Hc].
  { apply (classify_dom _ _ _ Hm).
    unfold agendasMatch in Hmatch. rewrite Forall_forall in Hmatch. by apply Hmatch. }
  destruct (classify_lookup _ _ _ _ Hm Hc) as (HID & _ & _ & Hmap).
  exists ((range _ m).*2), c. rewrite HID. split_and!.
  - apply Impfzentren_Return. by exists ciz, m.
  - apply (elem_of_centers _ _ _ Hm). by rewrite HID.
  - done.
  - apply (Hmap false). split; [done|].
    apply referenced_elem_of. by exists a.
  - rewrite <- HID in Hc. rewrite <- HID.
    by rewrite <- (mapping_dom ciz m c true k Hm Hc).
Qed.

Lemma elem_of_Collect_worker w centers p k e :
  (Worker p k, e) ∈ flat_map (collectCenter range w) centers ↔
  ∃ c n, c ∈ centers ∧ ID c = p ∧ Vaccination c !! k = Some n
    ∧ e ∈ CollectAvailability w c k n.
Proof.
  rewrite elem_of_flat_map. setoid_rewrite elem_of_collectCenter. split.
  - intros (c & Hc & [(k' & n & Hn & [[? _]|[[= Hp Hk] He]])|(? & ? & _ & ? & _)]);
      try done. exists c, n. by subst.
  - intros (c & n & Hc & <- & Hn & He). exists c. split; [done|].
    left. exists k, n. split; [done|]. by right.
Qed.

Lemma elem_of_Collect_Main w centers e :
  (Main, e) ∈ flat_map (collectCenter range w) centers ↔
  ∃ c, c ∈ centers
    ∧ ((∃ k n, Vaccination c !! k = Some n ∧ e = Send (presence c n "false"))
       ∨ (∃ k v, DisabledVaccination c !! k = Some v
            ∧ e = Send (presence c v "true"))).
Proof.
  rewrite elem_of_flat_map. setoid_rewrite elem_of_collectCenter. split.
  - intros (c & Hc & [(k & n & Hn & [[_ ->]|[? _]])|(k & v & Hv & _ & ->)]);
      try done; exists c; (split; [done|]); [left | right]; by eauto.
  - intros (c & Hc & [(k & n & Hn & ->)|(k & v & Hv & ->)]);
      exists c; (split; [done|]); [left | right].
    + exists k, n. split; [done|]. by left.
    + by exists k, v.
Qed.

(** Only the goroutine of a pair asks for the availabilities of the pair. *)
Lemma elem_of_Collect_Get w centers g p k a :
  (g, Get p k a) ∈ flat_map (collectCenter range w) centers →
  g = Worker p k.
Proof.
  rewrite elem_of_flat_map. setoid_rewrite elem_of_collectCenter.
  intros (c & Hc & [(k' & n & Hn & [[_ ?]|[-> He]])|(? & ? & _ & _ & ?)]);
    try done.
  by apply elem_of_CollectAvailability_Get in He as (-> & -> & _).
Qed.


(** C7: when the catalogue request fails (no response, a status of 400 or
    more, an unreadable or undecodable body), the scrape logs the error,
    sends no sample, makes no further request and returns: it does not
    panic. *)
Theorem C7_catalog_failure_emits_nothing w :
  fetchFails (catalog w) →
  ∃ err tr, Impfzentren range (catalog w) = Fail err
    ∧ Collect range w = Some tr
    ∧ tr = [(Main, Log (ErrorFetchingImpfzentren err))]
    ∧ (∀ g, sent g tr = []) ∧ requested tr = [].
Proof.
  intros [err Herr]%fetch_fails.
  exists err, [(Main, Log (ErrorFetchingImpfzentren err))].
  unfold Collect, Impfzentren. rewrite Herr. by split_and!.
Qed.

(** C5 (as the code has it): for every Center and every vaccination-type
    id that is in the Center's disabled mapping and not in its enabled
    mapping, the scrape makes no availability request for the pair and
    starts no goroutine for it, so no next-slot sample comes from it; the
    presence sample with disabled="true" is sent.  Requests are made for the
    entries of the enabled mapping and for nothing else. *)
Theorem C5_disabled_only_is_not_fetched w centers c k v :
  Impfzentren range (catalog w) = Return centers → c ∈ centers →
  DisabledVaccination c !! k = Some v → Vaccination c !! k = None →
  ∃ tr, Collect range w = Some tr
    ∧ (∀ g a, (g, Get (ID c) k a) ∉ tr)
    ∧ (∀ e, (Worker (ID c) k, e) ∉ tr)
    ∧ sent (Worker (ID c) k) tr = []
    ∧ presence c v "true" ∈ sent Main tr
    ∧ (∀ p k' a, (p, k', a) ∈ requested tr ↔
         ∃ c', c' ∈ centers ∧ p = ID c' ∧ a = AgendaIDs c'
           ∧ is_Some (Vaccination c' !! k')).
Proof.
  intros Hret Hc Hdis Hen. rewrite (Collect_Return _ _ Hret).
  apply Impfzentren_Return in Hret as (ciz & m & Hf & Hm & ->).
  eexists; split; [done|].
  assert (∀ e, (Worker (ID c) k, e)
               ∉ flat_map (collectCenter range w) (range _ m).*2) as Hnone.
  { intros e (c' & n & Hc' & HID & Hn & _)%elem_of_Collect_worker.
    assert (c' = c) as -> by by apply (centers_same_ID ciz m).
    congruence. }
  split_and!.
  - intros g a Hin. pose proof (elem_of_Collect_Get _ _ _ _ _ _ Hin) as ->.
    by apply Hnone in Hin.
  - done.
  - apply elem_of_nil_inv. intros s Hs%elem_of_sent. by apply Hnone in Hs.
  - apply elem_of_sent, elem_of_Collect_Main. exists c. split; [done|].
    right. by exists k, v.
  - intros p k' a. rewrite elem_of_requested. split.
    + intros [g Hin]. pose proof (elem_of_Collect_Get _ _ _ _ _ _ Hin) as ->.
      apply elem_of_Collect_worker in Hin as (c' & n & Hc' & <- & Hn & He).
      apply elem_of_CollectAvailability_Get in He as (_ & _ & ->).
      exists c'. by rewrite Hn.
    + intros (c' & Hc' & -> & -> & [n Hn]). exists (Worker (ID c') k').
      apply elem_of_Collect_worker. exists c', n. split_and!; try done.
      by apply elem_of_CollectAvailability_Get.
Qed.




End scrape.

(** ** The calendar on known days *)

Example Date_epoch :
  Date 1970 1 1 = 0
  ∧ Date 2000 3 1 = 951868800 * Second
  ∧ Date 2024 1 10 = 1704844800 * Second
  ∧ Date 1969 12 31 = - 86400 * Second.
Proof. by vm_compute. Qed.

Example Parse_accepts :
  Parse "2024-02-29" = Some (Date 2024 2 29)
  ∧ Parse "0000-01-01" = Some (Date 0 1 1)
  ∧ Parse "9999-12-31" = Some (Date 9999 12 31).
Proof. by vm_compute. Qed.

Example Parse_rejects :
  Parse "2023-02-29" = None ∧ Parse "2024-13-01" = None
  ∧ Parse "2024-00-10" = None ∧ Parse "2024-01-00" = None
  ∧ Parse "2024-1-12" = None ∧ Parse "2024-01-12T08:00" = None
  ∧ Parse "12.01.2024" = None.
Proof. by vm_compute. Qed.

(** ** The classifier on the sample catalogues *)

(** C1 (defect of the code): on a catalogue with an agenda of a practice
    that no place lists first, the classifier does not skip the agenda: the
    agenda loop reads a field through the nil pointer it looked up, so
    [Impfzentren] panics, and [Collect] with it, whatever the order of
    iteration and whatever the availability service would answer. *)
Theorem C1_orphan_agenda_panics :
  classify orphanAgenda = None
  ∧ (∀ range, Impfzentren range (ok orphanAgenda) = Panic)
  ∧ (∀ range answer now,
       Collect range (world (ok orphanAgenda) answer now) = None).
Proof. by split_and!. Qed.

Lemma inOrder_perm (A : Type) (m : gmap Z A) : inOrder A m ≡ₚ map_to_list m.
Proof. reflexivity. Defined.

(** The claim of C2 fails: type 5, listed by a bookable agenda and then by
    a disabled agenda of the same centre, ends up in both mappings. *)
Lemma C2_counterexample :
  ∃ centers c,
    Impfzentren inOrder (ok enabledThenDisabled) = Return centers
    ∧ c ∈ centers
    ∧ Vaccination c !! 5 = Some "BioNTech"
    ∧ DisabledVaccination c !! 5 = Some "BioNTech"
    ∧ ¬ (dom (Vaccination c) ## dom (DisabledVaccination c)).
Proof.
  exists [bothMappings], bothMappings.
  split_and!; [by vm_compute | by left | done | done |].
  intros H. apply (H 5); by apply elem_of_dom.
Qed.

Lemma C2_witness :
  ∃ ciz, fetch (ok enabledThenDisabled) = inl ciz
    ∧ (∀ disabled k,
         k ∈ dom (mapping disabled bothMappings)
         ↔ referenced (Agendas ciz) (ID bothMappings) disabled k)
    ∧ (∀ k, k ∈ dom (Vaccination bothMappings)
            ∧ k ∈ dom (DisabledVaccination bothMappings)
            ↔ referenced (Agendas ciz) (ID bothMappings) false k
              ∧ referenced (Agendas ciz) (ID bothMappings) true k)
    ∧ (dom (Vaccination bothMappings) ## dom (DisabledVaccination bothMappings)
       ↔ ∀ k, ¬ (referenced (Agendas ciz) (ID bothMappings) false k
                 ∧ referenced (Agendas ciz) (ID bothMappings) true k)).
Proof.
  apply (C2_overlap_iff_both_kinds inOrder inOrder_perm (ok enabledThenDisabled)
           [bothMappings] bothMappings).
  - vm_compute. reflexivity.
  - apply list_elem_of_here.
Defined.

(** The claim of C3 fails: type 5 is listed by the bookable agenda 11, no
    agenda comes after it, and yet type 5 is in the disabled mapping too,
    put there by the disabled agenda 10 that came before. *)
Lemma C3_counterexample :
  ∃ centers c a,
    Impfzentren inOrder (ok disabledThenEnabled) = Return centers
    ∧ c ∈ centers
    ∧ Agendas disabledThenEnabled = [agenda 10 1 [5] false true] ++ a :: []
    ∧ Agenda_PracticeID a = ID c ∧ disabling a = false
    ∧ 5 ∈ Agenda_VisitMotives a
    ∧ Vaccination c !! 5 = Some "BioNTech"
    ∧ DisabledVaccination c !! 5 = Some "BioNTech".
Proof.
  exists [bothMappings], bothMappings,
         (agenda 11 1 [5] false false).
  split_and!; [by vm_compute | by left | done | done | done | by left | done | done].
Qed.

Lemma C3_witness :
  ∃ centers c, Impfzentren inOrder (ok arena) = Return centers
    ∧ c ∈ centers ∧ ID c = 1
    ∧ Vaccination c !! 5 = Some (index (motiveByID (VisitMotives arena)) 5)
    ∧ (5 ∉ dom (DisabledVaccination c) ↔ ¬ referenced (Agendas arena) (ID c) true 5).
Proof.
  apply (C3_enabled_whatever_the_order inOrder inOrder_perm (ok arena) arena
           (agenda 10 1 [5; 6] false false) 5).
  - reflexivity.
  - apply (bool_decide_unpack _). vm_compute. exact I.
  - apply list_elem_of_here.
  - reflexivity.
  - apply list_elem_of_here.
Defined.

(** The claim of C8 fails: two places list practice 1 first, every agenda
    belongs to practice 1, and there is one Center, named after the second
    place; the first place has none. *)
Lemma C8_counterexample :
  agendasMatch sharedPractice
  ∧ length (filter (λ p, Place_PractiseIDs p ≠ []) (Places sharedPractice)) = 2%nat
  ∧ ∃ c, Impfzentren inOrder (ok sharedPractice) = Return [c]
      ∧ ID c = 1 ∧ Name c = "Velodrom".
Proof.
  split_and!; [| done |].
  - apply (bool_decide_unpack _). vm_compute. exact I.
  - exists {| ID := 1; Name := "Velodrom"; DisabledVaccination := ∅;
              Vaccination := {[5 := "BioNTech"]}; AgendaIDs := [10] |}.
    split_and!; [by vm_compute | done | done].
Qed.

Lemma C8_witness :
  ∃ centers, Impfzentren inOrder (ok arena) = Return centers
    ∧ NoDup (ID <$> centers)
    ∧ (∀ id, id ∈ ID <$> centers ↔ id ∈ firstPracticeIDs (Places arena))
    ∧ (∀ c, c ∈ centers →
         ∃ ps1 p ps2, Places arena = ps1 ++ p :: ps2
           ∧ head (Place_PractiseIDs p) = Some (ID c)
           ∧ (ID c ∉ firstPracticeIDs ps2)
           ∧ Name c = Place_Name p)
    ∧ (NoDup (firstPracticeIDs (Places arena)) →
         ID <$> centers ≡ₚ firstPracticeIDs (Places arena)).
Proof.
  apply (C8_one_center_per_first_practice inOrder inOrder_perm (ok arena) arena).
  - reflexivity.
  - apply (bool_decide_unpack _). vm_compute. exact I.
Defined.

(** ** The next date *)

Lemma firstWithSlots_find avs :
  firstWithSlots avs
  = match find hasSlots avs with
    | Some a => Availability_Date a
    | None => ""
    end.
Proof.
  induction avs as [|a avs IH]; simpl; [done|]. by destruct (hasSlots a).
Qed.

(** C4 (as the code has it): the resolved next date is the date of the
    first availability window, in returned order, whose slot list is
    non-empty, when that date is not the empty string; when no window has a
    slot, or the first that has one carries no date, it is the top-level
    next_slot hint; when that is empty too there is no next date, and the
    goroutine then returns without a sample and without an error.  For the
    windows [2024-01-10 without slots, 2024-01-12 with a slot] and no hint
    the result is 2024-01-12. *)
Theorem C4_next_date_resolution :
  (∀ r, nextDate r
        = match find hasSlots (Availabilities r) with
          | Some a => if String.eqb (Availability_Date a) ""
                      then NextSlot r else Availability_Date a
          | None => NextSlot r
          end)
  ∧ (∀ w c k n r,
       fetch (availabilities w (ID c) k (AgendaIDs c)) = inl r →
       nextDate r = "" →
       CollectAvailability w c k n
       = [Log (Calling (ID c) k (AgendaIDs c)); Get (ID c) k (AgendaIDs c);
          Log (Printf r)])
  ∧ nextDate secondWindow = "2024-01-12"
  ∧ nextDate hintOnly = "2024-02-01".
Proof.
  split_and!; [| | done | done].
  - intros r. unfold nextDate. rewrite firstWithSlots_find.
    by destruct (find hasSlots (Availabilities r)).
  - intros w c k n r Hr Hnone.
    unfold CollectAvailability, GetAvailabilities. by rewrite Hr, Hnone.
Qed.

(** The claim of C4 fails: the first window that has a slot has the empty
    string as its date, and the resolved date is the hint, not the date of
    that window. *)
Lemma C4_counterexample :
  find hasSlots (Availabilities undatedWindow) = Some (window "" [slot])
  ∧ Availability_Date (window "" [slot]) = ""
  ∧ nextDate undatedWindow = "2024-02-01".
Proof. by split_and!. Qed.

(** ** The next-slot value *)






(** ** Scrapes of the sample catalogues *)

(** The claim of C5 fails: type 5 is in the disabled mapping of the centre
    and, being in the enabled mapping too, its availabilities are requested
    and its goroutine sends a next-slot sample. *)
Lemma C5_counterexample :
  ∃ tr,
    Impfzentren inOrder (ok enabledThenDisabled) = Return [bothMappings]
    ∧ DisabledVaccination bothMappings !! 5 = Some "BioNTech"
    ∧ Collect inOrder (world (ok enabledThenDisabled) (ok hintOnly) (Date 2024 1 10))
      = Some tr
    ∧ (Worker 1 5, Get 1 5 [10; 11]) ∈ tr
    ∧ sent (Worker 1 5) tr
      = [nextSlotSample bothMappings "BioNTech" (Date 2024 1 10) (Date 2024 2 1)].
Proof.
  eexists. split_and!; [by vm_compute | done | by vm_compute | |by vm_compute].
  do 2 right. by left.
Qed.

Lemma C5_witness :
  ∃ tr, Collect inOrder (world (ok oneOfEach) (ok hintOnly) (Date 2024 1 10)) = Some tr
    ∧ (∀ g a, (g, Get (ID (arenaCenter {[5 := "BioNTech"]} {[6 := "Moderna"]} [10; 11]))
                     6 a) ∉ tr)
    ∧ (∀ e, (Worker (ID (arenaCenter {[5 := "BioNTech"]} {[6 := "Moderna"]} [10; 11])) 6, e)
            ∉ tr)
    ∧ sent (Worker (ID (arenaCenter {[5 := "BioNTech"]} {[6 := "Moderna"]} [10; 11])) 6) tr
      = []
    ∧ presence (arenaCenter {[5 := "BioNTech"]} {[6 := "Moderna"]} [10; 11])
        "Moderna" "true" ∈ sent Main tr
    ∧ (∀ p k' a, (p, k', a) ∈ requested tr ↔
         ∃ c', c' ∈ [arenaCenter {[5 := "BioNTech"]} {[6 := "Moderna"]} [10; 11]]
           ∧ p = ID c' ∧ a = AgendaIDs c'
           ∧ is_Some (Vaccination c' !! k')).
Proof.
  apply (C5_disabled_only_is_not_fetched inOrder inOrder_perm
           (world (ok oneOfEach) (ok hintOnly) (Date 2024 1 10))
           [arenaCenter {[5 := "BioNTech"]} {[6 := "Moderna"]} [10; 11]]
           (arenaCenter {[5 := "BioNTech"]} {[6 := "Moderna"]} [10; 11])
           6 "Moderna").
  - vm_compute. reflexivity.
  - apply list_elem_of_here.
  - vm_compute. reflexivity.
  - vm_compute. reflexivity.
Defined.


Lemma C7_witness :
  ∃ err tr,
    Impfzentren inOrder
      (catalog (world (Response 503 "503 Service Unavailable" (Decoded arena))
                  (ok hintOnly) 0)) = Fail err
    ∧ Collect inOrder (world (Response 503 "503 Service Unavailable" (Decoded arena))
                         (ok hintOnly) 0) = Some tr
    ∧ tr = [(Main, Log (ErrorFetchingImpfzentren err))]
    ∧ (∀ g, sent g tr = []) ∧ requested tr = [].
Proof.
  apply (C7_catalog_failure_emits_nothing inOrder
           (world (Response 503 "503 Service Unavailable" (Decoded arena))
              (ok hintOnly) 0)).
  apply badStatus. lia.
Defined.


(** * The rest of the program *)

(** ** [unique] *)

(** The loop from any state in which [keys] holds the entries of [list]:
    [list] grows by the entries that are new to it, each once, in the order
    of [unique]. *)
Lemma unique_loop slice : ∀ (keys : gmap string bool) (list : list string),
  (∀ x, is_Some (keys !! x) ↔ x ∈ list) →
  (foldl uniqueStep (keys, list) slice).2
  = list ++ filter (λ y, y ∉ list) (unique slice).
Proof.
  induction slice as [|x slice IH]; intros keys list Hkeys; simpl.
  - by rewrite app_nil_r.
  - assert (unique (x :: slice) = x :: filter (λ y, y ∉ [x]) (unique slice)) as ->.
    { unfold unique at 1. simpl. unfold uniqueStep at 2. simpl.
      rewrite lookup_empty. simpl. rewrite IH; [done|].
      intros y. rewrite list_elem_of_singleton.
      destruct (decide (y = x)) as [->|Hne].
      - rewrite lookup_insert_eq. by split; eauto.
      - rewrite lookup_insert_ne, lookup_empty by done. split; [by intros [? ?]|done]. }
    unfold uniqueStep at 2. simpl.
    destruct (keys !! x) as [b|] eqn:Hx.
    + assert (x ∈ list) as Hin by (apply Hkeys; rewrite Hx; eauto).
      rewrite (IH _ _ Hkeys). f_equal.
      rewrite filter_cons_False by (intros Hn; by apply Hn).
      rewrite list_filter_filter. apply list_filter_iff. intros y.
      rewrite list_elem_of_singleton. split; [|tauto].
      intros Hy. split; [done|]. by intros ->.
    + assert (x ∉ list) as Hin.
      { intros [? Hs]%Hkeys. congruence. }
      rewrite IH.
      * rewrite <- app_assoc. f_equal. simpl.
        rewrite filter_cons_True by done. f_equal.
        rewrite list_filter_filter. apply list_filter_iff. intros y.
        rewrite not_elem_of_app. tauto.
      * intros y. rewrite elem_of_app, list_elem_of_singleton, <- Hkeys.
        destruct (decide (x = y)) as [->|Hne].
        -- rewrite lookup_insert_eq. by split; eauto.
        -- rewrite lookup_insert_ne by done. split; [by left | intros [|]; congruence].
Qed.

Lemma filter_all {A} (P : A → Prop) `{!∀ x, Decision (P x)} (l : list A) :
  (∀ x, x ∈ l → P x) → filter P l = l.
Proof.
  induction l as [|x l IH]; intros Hall; [done|].
  rewrite filter_cons_True by (apply Hall; by left).
  f_equal. apply IH. intros y Hy. apply Hall. by right.
Qed.

Lemma unique_cons x slice :
  unique (x :: slice) = x :: filter (λ y, y ≠ x) (unique slice).
Proof.
  unfold unique at 1. simpl. unfold uniqueStep at 2. simpl.
  rewrite lookup_empty. simpl. rewrite unique_loop.
  - simpl. f_equal. apply list_filter_iff. intros y.
    by rewrite list_elem_of_singleton.
  - intros y. rewrite list_elem_of_singleton.
    destruct (decide (y = x)) as [->|Hne].
    + rewrite lookup_insert_eq. by split; eauto.
    + rewrite lookup_insert_ne, lookup_empty by done. split; [by intros [? ?]|done].
Qed.

Lemma unique_NoDup slice : NoDup (unique slice).
Proof.
  induction slice as [|x slice IH]; [constructor|].
  rewrite unique_cons. constructor; [|by apply NoDup_filter].
  rewrite list_elem_of_filter. by intros [? _].
Qed.

(** X11: [unique] returns the entries of its argument, each exactly once. *)
Theorem unique_NoDup_elements slice :
  NoDup (unique slice) ∧ ∀ x, x ∈ unique slice ↔ x ∈ slice.
Proof.
  split; [apply unique_NoDup|].
  induction slice as [|x slice IH]; [done|].
  intros y. rewrite unique_cons, !elem_of_cons, list_elem_of_filter, IH.
  destruct (decide (y = x)); tauto.
Qed.

(** X12: [unique] keeps the first occurrence of every entry and the order of
    the first occurrences: the result is a sublist of the argument, and on a
    concatenation it is the result on the first part followed by what the
    second part adds. *)
Theorem unique_first_occurrences l1 l2 :
  unique l1 `sublist_of` l1
  ∧ unique (l1 ++ l2) = unique l1 ++ filter (λ y, y ∉ l1) (unique l2).
Proof.
  split.
  - induction l1 as [|x l1 IH]; [done|].
    rewrite unique_cons. apply sublist_skip.
    by etrans; [apply sublist_filter|].
  - induction l1 as [|x l1 IH]; simpl.
    + symmetry. apply filter_all. intros y _. by intros ?%elem_of_nil.
    + rewrite !unique_cons, IH, filter_app. simpl. f_equal. f_equal.
      rewrite list_filter_filter. apply list_filter_iff. intros y.
      rewrite not_elem_of_cons. tauto.
Qed.

(** X13: A second pass changes nothing, and the lists [unique] leaves as they
    are are the lists without a repeated entry. *)
Theorem unique_idempotent slice :
  unique (unique slice) = unique slice
  ∧ (unique slice = slice ↔ NoDup slice).
Proof.
  assert (∀ l : list string, NoDup l → unique l = l) as Hfix.
  { induction l as [|x l IH]; intros Hnd; [done|].
    apply NoDup_cons in Hnd as [Hx Hnd].
    rewrite unique_cons, (IH Hnd). f_equal.
    apply filter_all. intros y Hy ->. done. }
  split.
  - apply Hfix, unique_NoDup.
  - split; [|apply Hfix]. intros <-. apply unique_NoDup.
Qed.

(** ** The samples of a scrape and their descriptors *)

Section samples.
Variable range : ∀ A : Type, gmap Z A → list (Z * A).
Hypothesis range_perm : ∀ (A : Type) (m : gmap Z A), range A m ≡ₚ map_to_list m.

Lemma Collect_Some w tr :
  Collect range w = Some tr →
  (∃ err, fetch (catalog w) = inr err
     ∧ tr = [(Main, Log (ErrorFetchingImpfzentren err))])
  ∨ (∃ centers, Impfzentren range (catalog w) = Return centers
       ∧ tr = flat_map (collectCenter range w) centers).
Proof.
  unfold Collect. destruct (Impfzentren range (catalog w)) as [centers|err|] eqn:HI;
    intros [= <-].
  - right. by exists centers.
  - left. exists err. split; [|done]. unfold Impfzentren in HI.
    destruct (fetch (catalog w)) as [ciz|]; [by destruct (classify ciz)|].
    by injection HI as ->.
Qed.

(** What a goroutine can have sent. *)
Lemma sent_shapes w tr g m :
  Collect range w = Some tr → m ∈ sent g tr →
  match g with
  | Main => ∃ c type disabled,
      m = presence c type disabled ∧ (disabled = "true" ∨ disabled = "false")
  | Worker p k => ∃ c n now t, ID c = p ∧ m = nextSlotSample c n now t
  end.
Proof.
  intros [(err & _ & ->)|(centers & _ & ->)]%Collect_Some Hm%elem_of_sent.
  - apply list_elem_of_singleton in Hm. congruence.
  - destruct g as [|p k].
    + apply (elem_of_Collect_Main range range_perm) in Hm
        as (c & _ & [(k & n & _ & [= ->])|(k & v & _ & [= ->])]).
      * exists c, n, "false". by eauto.
      * exists c, v, "true". by eauto.
    + apply (elem_of_Collect_worker range range_perm) in Hm
        as (c & n & _ & HID & _ & Hm).
      apply elem_of_CollectAvailability_Send in Hm as (r & t & _ & _ & _ & ->).
      by exists c, n, (Now w (ID c) k), t.
Qed.

(** X8: Every sample of a scrape has as many label values as its descriptor has
    labels, which is what [MustNewConstMetric] panics on otherwise.  The
    samples [Collect] sends itself are presence samples: value 1, three
    labels, the last one ["true"] or ["false"]; a goroutine sends next-slot
    samples only. *)
Theorem Collect_samples_fit_their_descriptors w tr g m :
  Collect range w = Some tr → m ∈ sent g tr →
  length (labelValues m) = length (variableLabels (descriptor (desc m)))
  ∧ (g = Main →
       desc m = impfzentrumMetric ∧ value m = float64 1
       ∧ ∃ name type disabled, labelValues m = [name; type; disabled]
           ∧ (disabled = "true" ∨ disabled = "false"))
  ∧ (g ≠ Main → desc m = nextSlotMetric).
Proof.
  intros Htr Hm. pose proof (sent_shapes _ _ _ _ Htr Hm) as Hshape.
  destruct g as [|p k].
  - destruct Hshape as (c & type & disabled & -> & Hd).
    split_and!; [done | | done]. intros _. split_and!; [done..|].
    by exists (Name c), type, disabled.
  - destruct Hshape as (c & n & now & t & _ & ->). by split_and!.
Qed.

(** X9: [Describe], called on the collector as registered or as an earlier
    call left it, leaves both descriptors set and sends the presence
    descriptor and nothing else.  So of the samples of a scrape exactly
    those that [Collect] sends itself name a descriptor that was announced;
    the next-slot samples of the goroutines name one that never is. *)
Theorem Describe_announces_presence_only c w tr g m :
  c = zeroCollector ∨ c = (Describe zeroCollector).1 →
  Collect range w = Some tr → m ∈ sent g tr →
  (Describe c).1
  = {| cl_impfzentrumMetric := Some (descriptor impfzentrumMetric);
       cl_nextSlotMetric := Some (descriptor nextSlotMetric) |}
  ∧ (Describe c).2 = [Some (descriptor impfzentrumMetric)]
  ∧ (Some (descriptor (desc m)) ∈ (Describe c).2 ↔ g = Main).
Proof.
  intros Hc Htr Hm.
  assert ((Describe c).2 = [Some (descriptor impfzentrumMetric)]) as Hch
    by by destruct Hc as [->| ->].
  split_and!; [by destruct Hc as [->| ->] | done |].
  rewrite Hch, list_elem_of_singleton.
  pose proof (sent_shapes _ _ _ _ Htr Hm) as Hshape.
  destruct g as [|p k].
  - by destruct Hshape as (? & ? & ? & -> & _).
  - destruct Hshape as (? & ? & ? & ? & _ & ->). simpl. by split.
Qed.

(** *** Counting requests and samples *)

Lemma length_flat_map {A B} (f : A → list B) (l : list A) :
  length (flat_map f l) = sum_list (length ∘ f <$> l).
Proof.
  induction l as [|x l IH]; simpl; [done|]. by rewrite length_app, IH.
Qed.

Lemma omap_flat_map {A B C} (g : B → option C) (f : A → list B) (l : list A) :
  omap g (flat_map f l) = flat_map (omap g ∘ f) l.
Proof.
  induction l as [|x l IH]; simpl; [done|]. by rewrite omap_app, IH.
Qed.

Lemma length_range {A} (m : gmap Z A) : length (range A m) = size m.
Proof. by rewrite range_perm, length_map_to_list. Qed.

Lemma NoDup_range {A} (m : gmap Z A) : NoDup (range A m).*1.
Proof. rewrite range_perm. apply NoDup_fst_map_to_list. Qed.

(** The requests of one goroutine: the one of its pair. *)
Lemma requested_CollectAvailability g w c k n :
  requested ((λ e, (g, e)) <$> CollectAvailability w c k n)
  = [(ID c, k, AgendaIDs c)].
Proof.
  unfold CollectAvailability, GetAvailabilities.
  destruct (fetch (availabilities w (ID c) k (AgendaIDs c))) as [r|err];
    [destruct (String.eqb (nextDate r) ""); [|destruct (Parse (nextDate r))]|];
    done.
Qed.

(** The samples of one goroutine: none or one. *)
Lemma sent_CollectAvailability g w c k n :
  (length (sent g ((λ e, (g, e)) <$> CollectAvailability w c k n)) ≤ 1)%nat.
Proof.
  unfold CollectAvailability, GetAvailabilities.
  destruct (fetch (availabilities w (ID c) k (AgendaIDs c))) as [r|err];
    [destruct (String.eqb (nextDate r) ""); [|destruct (Parse (nextDate r))]|];
    simpl; try lia.
  destruct (decide (g = g)); simpl; lia.
Qed.

Lemma sent_other_goroutine g g' (l : list event) :
  g' ≠ g → sent g ((λ e, (g', e)) <$> l) = [].
Proof.
  intros Hne. induction l as [|e l IH]; [done|]. simpl.
  destruct e; try done. by rewrite decide_False.
Qed.

Lemma requested_app tr1 tr2 :
  requested (tr1 ++ tr2) = requested tr1 ++ requested tr2.
Proof. apply omap_app. Qed.

Lemma sent_app g tr1 tr2 : sent g (tr1 ++ tr2) = sent g tr1 ++ sent g tr2.
Proof. apply omap_app. Qed.

Lemma requested_Send g m tr : requested ((g, Send m) :: tr) = requested tr.
Proof. done. Qed.

Lemma sent_Main_Send m tr : sent Main ((Main, Send m) :: tr) = m :: sent Main tr.
Proof. done. Qed.

Lemma sent_worker_Main_Send p k m tr :
  sent (Worker p k) ((Main, Send m) :: tr) = sent (Worker p k) tr.
Proof. done. Qed.

(** The requests for one centre: one for every entry of the enabled
    mapping. *)
Lemma requested_collectCenter w c :
  requested (collectCenter range w c)
  = (λ kv, (ID c, kv.1, AgendaIDs c)) <$> range _ (Vaccination c).
Proof.
  unfold collectCenter. rewrite requested_app.
  assert (∀ l : list (Z * string),
            requested ((λ '(_, v), (Main, Send (presence c v "true"))) <$> l) = [])
    as ->.
  { induction l as [|[k v] l IH]; [done|]. by rewrite fmap_cons, requested_Send. }
  rewrite app_nil_r.
  induction (range string (Vaccination c)) as [|[k n] l IH]; [done|].
  cbn [flat_map]. rewrite fmap_cons, requested_app, requested_Send.
  by rewrite requested_CollectAvailability, IH.
Qed.

(** The samples [Collect] sends itself for one centre: one for every entry
    of either mapping. *)
Lemma sent_Main_collectCenter w c :
  sent Main (collectCenter range w c)
  = ((λ kv, presence c kv.2 "false") <$> range _ (Vaccination c))
    ++ ((λ kv, presence c kv.2 "true") <$> range _ (DisabledVaccination c)).
Proof.
  unfold collectCenter. rewrite sent_app. f_equal.
  - induction (range string (Vaccination c)) as [|[k n] l IH]; [done|].
    cbn [flat_map]. rewrite fmap_cons, sent_app, sent_Main_Send.
    by rewrite sent_other_goroutine, IH.
  - induction (range string (DisabledVaccination c)) as [|[k v] l IH]; [done|].
    by rewrite !fmap_cons, sent_Main_Send, IH.
Qed.

(** The samples of the goroutine of practice [p] and type [k] among the
    events of one centre. *)
Lemma sent_worker_collectCenter w c p k :
  (ID c ≠ p → sent (Worker p k) (collectCenter range w c) = [])
  ∧ (length (sent (Worker p k) (collectCenter range w c)) ≤ 1)%nat.
Proof.
  unfold collectCenter. rewrite sent_app.
  assert (∀ l : list (Z * string),
            sent (Worker p k)
              ((λ '(_, v), (Main, Send (presence c v "true"))) <$> l) = [])
    as ->.
  { induction l as [|[k' v] l IH]; [done|]. by rewrite fmap_cons, sent_worker_Main_Send. }
  rewrite app_nil_r.
  pose proof (NoDup_range (Vaccination c)) as Hnd. revert Hnd.
  generalize (range string (Vaccination c)). intros l.
  induction l as [|[k' n] l IH]; intros Hnd; [split; [done | simpl; lia]|].
  cbn [flat_map]. rewrite sent_app, sent_worker_Main_Send.
  rewrite fmap_cons in Hnd.
  apply NoDup_cons in Hnd as [Hk' Hnd]. destruct (IH Hnd) as [IH0 IH1].
  destruct (decide (Worker (ID c) k' = Worker p k)) as [[= HID Hk]|Hne].
  - subst p k'. split; [done|].
    assert (sent (Worker (ID c) k)
              (flat_map (λ '(motiveID, motiveName),
                           (Main, Send (presence c motiveName "false"))
                           :: ((λ e, (Worker (ID c) motiveID, e))
                                 <$> CollectAvailability w c motiveID motiveName)) l)
            = []) as ->.
    { clear IH IH0 IH1 Hnd. induction l as [|[k2 n2] l IH]; [done|].
      cbn [flat_map]. rewrite sent_app, sent_worker_Main_Send.
      rewrite sent_other_goroutine.
      - apply IH. intros Hin. apply Hk'. rewrite fmap_cons. by right.
      - intros [= ->]. apply Hk'. rewrite fmap_cons. by left. }
    rewrite app_nil_r. apply sent_CollectAvailability.
  - rewrite (sent_other_goroutine _ _ _ Hne). simpl. split; [|done].
    intros HID. by apply IH0.
Qed.

Lemma flat_map_nil {A B} (h : A → list B) (l : list A) :
  (∀ x, x ∈ l → h x = []) → flat_map h l = [].
Proof.
  induction l as [|x l IH]; intros Hall; simpl; [done|].
  rewrite (Hall x) by by left. apply IH. intros y Hy. apply Hall. by right.
Qed.

Lemma length_flat_map_one {A B} (f : A → Z) (h : A → list B) (key : Z)
    (l : list A) :
  NoDup (f <$> l) → (∀ x, f x ≠ key → h x = []) →
  (∀ x, length (h x) ≤ 1)%nat → (length (flat_map h l) ≤ 1)%nat.
Proof.
  intros Hnd Hother Hone.
  induction l as [|x l IH]; simpl; [lia|].
  rewrite fmap_cons in Hnd. apply NoDup_cons in Hnd as [Hx Hnd].
  rewrite length_app. destruct (decide (f x = key)) as [Hkey|Hkey].
  - rewrite (flat_map_nil h l); [specialize (Hone x); simpl; lia|].
    intros y Hy. apply Hother. intros Hfy. apply Hx.
    apply list_elem_of_fmap. exists y. split; [congruence | done].
  - rewrite (Hother x Hkey). by apply IH.
Qed.

Lemma fmap_flat_map {A B C} (g : B → C) (f : A → list B) (l : list A) :
  g <$> flat_map f l = flat_map (λ x, g <$> f x) l.
Proof.
  induction l as [|x l IH]; simpl; [done|]. by rewrite fmap_app, IH.
Qed.

Lemma NoDup_flat_map_pairs {A} (f : A → Z) (g : A → list Z) (l : list A) :
  NoDup (f <$> l) → (∀ x, NoDup (g x)) →
  NoDup (flat_map (λ x, (λ k, (f x, k)) <$> g x) l).
Proof.
  intros Hnd Hg. induction l as [|x l IH]; simpl; [constructor|].
  rewrite fmap_cons in Hnd. apply NoDup_cons in Hnd as [Hx Hnd].
  apply NoDup_app. split_and!.
  - apply NoDup_fmap_2; [|done]. by intros k1 k2 [= ->].
  - intros [p k] (k1 & [= -> ->] & _)%list_elem_of_fmap
      (y & Hy & (k2 & [= Hf _] & _)%list_elem_of_fmap)%elem_of_flat_map.
    apply Hx. apply list_elem_of_fmap. by exists y.
  - by apply IH.
Qed.

Lemma requested_flat_map {A} (f : A → list (goroutine * event)) (l : list A) :
  requested (flat_map f l) = flat_map (λ x, requested (f x)) l.
Proof.
  induction l as [|x l IH]; simpl; [done|]. by rewrite requested_app, IH.
Qed.

Lemma sent_flat_map {A} g (f : A → list (goroutine * event)) (l : list A) :
  sent g (flat_map f l) = flat_map (λ x, sent g (f x)) l.
Proof.
  induction l as [|x l IH]; simpl; [done|]. by rewrite sent_app, IH.
Qed.

(** X6: A scrape asks for the availabilities of every entry of an enabled
    mapping once and for nothing else: the requests are one per centre and
    enabled type, each with all the agenda identifiers of the centre, and
    no pair of a practice and a type is asked for twice. *)
Theorem Collect_requests_each_enabled_pair_once w centers :
  Impfzentren range (catalog w) = Return centers →
  ∃ tr, Collect range w = Some tr
    ∧ requested tr
      = flat_map (λ c, (λ kv, (ID c, kv.1, AgendaIDs c))
                         <$> range _ (Vaccination c)) centers
    ∧ length (requested tr) = sum_list ((λ c, size (Vaccination c)) <$> centers)
    ∧ NoDup ((λ r, (r.1.1, r.1.2)) <$> requested tr).
Proof.
  intros Hret. rewrite (Collect_Return _ _ _ Hret). eexists. split; [done|].
  assert (requested (flat_map (collectCenter range w) centers)
          = flat_map (λ c, (λ kv, (ID c, kv.1, AgendaIDs c))
                             <$> range _ (Vaccination c)) centers) as ->.
  { rewrite requested_flat_map. apply flat_map_ext. intros c.
    apply requested_collectCenter. }
  split_and!; [done | |].
  - rewrite length_flat_map. f_equal. apply list_fmap_ext. intros i c _. simpl.
    by rewrite length_fmap, length_range.
  - rewrite fmap_flat_map.
    apply (Impfzentren_Return range) in Hret as (ciz & m & _ & Hm & ->).
    pose proof (centers_NoDup range range_perm ciz m Hm) as Hnd.
    pose proof (NoDup_flat_map_pairs ID (λ c, (range _ (Vaccination c)).*1)
                  _ Hnd (λ c, NoDup_range (Vaccination c))) as Hpairs.
    erewrite flat_map_ext; [exact Hpairs|].
    intros c. simpl. rewrite <- !list_fmap_compose. done.
Qed.

(** X7: A scrape sends one presence sample for every entry of either mapping
    of every centre, and the goroutine of a pair sends at most one
    next-slot sample. *)
Theorem Collect_samples_counted w centers :
  Impfzentren range (catalog w) = Return centers →
  ∃ tr, Collect range w = Some tr
    ∧ sent Main tr
      = flat_map (λ c, ((λ kv, presence c kv.2 "false") <$> range _ (Vaccination c))
                       ++ ((λ kv, presence c kv.2 "true")
                             <$> range _ (DisabledVaccination c))) centers
    ∧ length (sent Main tr)
      = sum_list ((λ c, size (Vaccination c) + size (DisabledVaccination c))%nat
                    <$> centers)
    ∧ ∀ p k, (length (sent (Worker p k) tr) ≤ 1)%nat.
Proof.
  intros Hret. rewrite (Collect_Return _ _ _ Hret). eexists. split; [done|].
  assert (sent Main (flat_map (collectCenter range w) centers)
          = flat_map (λ c, ((λ kv, presence c kv.2 "false") <$> range _ (Vaccination c))
                           ++ ((λ kv, presence c kv.2 "true")
                                 <$> range _ (DisabledVaccination c))) centers) as ->.
  { rewrite sent_flat_map. apply flat_map_ext. intros c.
    apply sent_Main_collectCenter. }
  split_and!; [done | |].
  - rewrite length_flat_map. f_equal. apply list_fmap_ext. intros i c _. simpl.
    by rewrite length_app, !length_fmap, !length_range.
  - intros p k. rewrite sent_flat_map.
    apply (Impfzentren_Return range) in Hret as (ciz & m & _ & Hm & ->).
    apply (length_flat_map_one ID _ p).
    + by apply (centers_NoDup range range_perm ciz m).
    + intros c. apply sent_worker_collectCenter.
    + intros c. apply sent_worker_collectCenter.
Qed.

(** *** What the centres and the requests are made of *)

(** The name kept for a type is the one the last visit motive with its
    identifier gives it. *)
Lemma motiveByID_lookup ms k n :
  motiveByID ms !! k = Some n →
  ∃ ms1 v ms2, ms = ms1 ++ v :: ms2 ∧ VisitMotive_ID v = k
    ∧ VisitMotive_Name v = n ∧ (k ∉ VisitMotive_ID <$> ms2).
Proof.
  unfold motiveByID. induction ms as [|v ms IH] using rev_ind; [done|].
  rewrite foldl_app. simpl.
  destruct (decide (VisitMotive_ID v = k)) as [<-|Hne].
  - rewrite lookup_insert_eq. intros [= <-]. exists ms, v, [].
    split_and!; try done. by intros ?%elem_of_nil.
  - rewrite lookup_insert_ne by done.
    intros (ms1 & v0 & ms2 & -> & ? & ? & ?)%IH.
    exists ms1, v0, (ms2 ++ [v]). rewrite <- app_assoc. split_and!; try done.
    rewrite fmap_app, not_elem_of_app. split; [done|].
    simpl. rewrite list_elem_of_singleton. congruence.
Qed.

Lemma Impfzentren_center resp ciz centers c :
  fetch resp = inl ciz → Impfzentren range resp = Return centers → c ∈ centers →
  ∃ m, classify ciz = Some m ∧ m !! ID c = Some c.
Proof.
  intros Hf (ciz' & m & Hf' & Hm & ->)%(Impfzentren_Return range) Hc.
  assert (ciz' = ciz) as -> by congruence.
  exists m. split; [done|]. by apply (elem_of_centers range range_perm ciz).
Qed.

(** X2: The agenda identifiers of a centre are those of all the agendas of its
    practice, disabled ones and repeated ones included, in the order of
    the catalogue. *)
Theorem center_AgendaIDs resp ciz centers c :
  fetch resp = inl ciz → Impfzentren range resp = Return centers → c ∈ centers →
  AgendaIDs c
  = Agenda_ID <$> filter (λ a, Agenda_PracticeID a = ID c) (Agendas ciz).
Proof.
  intros Hf Hret Hc.
  destruct (Impfzentren_center _ _ _ _ Hf Hret Hc) as (m & Hm & Hlook).
  by destruct (classify_lookup _ _ _ _ Hm Hlook) as (_ & _ & ? & _).
Qed.

(** X3: Every name in either mapping of a centre is the name of the last visit
    motive of the catalogue that has the identifier of the type, or the
    empty string when there is none. *)
Theorem center_names_last_wins resp ciz centers c disabled k v :
  fetch resp = inl ciz → Impfzentren range resp = Return centers → c ∈ centers →
  mapping disabled c !! k = Some v →
  ((k ∉ VisitMotive_ID <$> VisitMotives ciz) ∧ v = "")
  ∨ ∃ ms1 vm ms2, VisitMotives ciz = ms1 ++ vm :: ms2
      ∧ VisitMotive_ID vm = k ∧ (k ∉ VisitMotive_ID <$> ms2)
      ∧ v = VisitMotive_Name vm.
Proof.
  intros Hf Hret Hc Hv.
  destruct (Impfzentren_center _ _ _ _ Hf Hret Hc) as (m & Hm & Hlook).
  destruct (classify_lookup _ _ _ _ Hm Hlook) as (_ & _ & _ & Hmap).
  apply Hmap in Hv as [-> _]. unfold index.
  destruct (motiveByID (VisitMotives ciz) !! k) as [n|] eqn:Hn.
  - right. apply motiveByID_lookup in Hn as (ms1 & vm & ms2 & ? & ? & ? & ?).
    by exists ms1, vm, ms2.
  - left. split; [|done]. intros Hin.
    apply list_elem_of_fmap in Hin as (vm & -> & Hvm).
    apply list_elem_of_split in Hvm as (ms1 & ms2 & Hms).
    assert (is_Some (motiveByID (VisitMotives ciz) !! VisitMotive_ID vm)) as [? ?];
      [|congruence].
    rewrite Hms. clear. unfold motiveByID. rewrite foldl_app. simpl.
    induction ms2 as [|v2 ms2 IH] using rev_ind; simpl.
    + rewrite lookup_insert_eq. by eauto.
    + rewrite foldl_app. simpl.
      destruct (decide (VisitMotive_ID v2 = VisitMotive_ID vm)) as [->|].
      * rewrite lookup_insert_eq. by eauto.
      * by rewrite lookup_insert_ne.
Qed.

(** X5: Every request of a scrape is for a practice that some place lists
    first, names all the agendas of that practice, of which there is at
    least one, and is for a type that a bookable agenda of the practice
    lists. *)
Theorem Collect_requests_are_for_bookable_types w ciz tr p k a :
  fetch (catalog w) = inl ciz → Collect range w = Some tr →
  (p, k, a) ∈ requested tr →
  p ∈ firstPracticeIDs (Places ciz)
  ∧ a = Agenda_ID <$> filter (λ a, Agenda_PracticeID a = p) (Agendas ciz)
  ∧ a ≠ []
  ∧ ∃ b, b ∈ Agendas ciz ∧ Agenda_PracticeID b = p
      ∧ Agenda_BookingDisabled b = false
      ∧ Agenda_BookingTemporayDisabled b = false
      ∧ k ∈ Agenda_VisitMotives b.
Proof.
  intros Hf [(err & Herr & _)|(centers & Hret & ->)]%Collect_Some Hreq;
    [congruence|].
  apply elem_of_requested in Hreq as [g Hin].
  pose proof (elem_of_Collect_Get range range_perm _ _ _ _ _ _ Hin) as ->.
  apply (elem_of_Collect_worker range range_perm) in Hin
    as (c & n & Hc & <- & Hn & He).
  apply elem_of_CollectAvailability_Get in He as (_ & _ & ->).
  destruct (Impfzentren_center _ _ _ _ Hf Hret Hc) as (m & Hm & Hlook).
  destruct (classify_lookup _ _ _ _ Hm Hlook) as (_ & _ & HAg & Hmap).
  apply (Hmap false) in Hn as [_ (b & Hb & Hp & Hdis & Hk)%referenced_elem_of].
  unfold disabling in Hdis. apply orb_false_elim in Hdis as [Hd1 Hd2].
  split_and!.
  - apply (classify_dom _ _ _ Hm). by eauto.
  - done.
  - rewrite HAg. unfold agendaIDsOf. intros Hnil.
    apply fmap_nil_inv in Hnil.
    assert (b ∈ filter (λ a, Agenda_PracticeID a = ID c) (Agendas ciz)) as Hin
      by by apply list_elem_of_filter.
    rewrite Hnil in Hin. by apply elem_of_nil in Hin.
  - by exists b.
Qed.

(** X4: A centre is absent from a scrape, with no sample and no request of its
    own, exactly when no agenda of its practice lists a type. *)
Theorem center_without_types_is_silent w ciz centers c :
  fetch (catalog w) = inl ciz →
  Impfzentren range (catalog w) = Return centers → c ∈ centers →
  collectCenter range w c = []
  ↔ ∀ a, a ∈ Agendas ciz → Agenda_PracticeID a = ID c →
         Agenda_VisitMotives a = [].
Proof.
  intros Hf Hret Hc.
  destruct (Impfzentren_center _ _ _ _ Hf Hret Hc) as (m & Hm & Hlook).
  destruct (classify_lookup _ _ _ _ Hm Hlook) as (_ & _ & _ & Hmap).
  split.
  - intros Hnil a Ha Hp.
    destruct (Agenda_VisitMotives a) as [|k ks] eqn:Hks; [done|]. exfalso.
    assert (mapping (disabling a) c !! k
            = Some (index (motiveByID (VisitMotives ciz)) k)) as Hk.
    { apply Hmap. split; [done|]. apply referenced_elem_of. exists a.
      split; [done|]. split_and!; [done..|]. rewrite Hks. by left. }
    assert (∃ ge, ge ∈ collectCenter range w c) as [ge Hge];
      [|rewrite Hnil in Hge; by apply elem_of_nil in Hge].
    unfold mapping in Hk. destruct (disabling a).
    + eexists (Main, _). apply (elem_of_collectCenter range range_perm).
      right. by eauto.
    + eexists (Main, _). apply (elem_of_collectCenter range range_perm).
      left. eexists k, _. split; [done|]. by left.
  - intros Hnone. apply elem_of_nil_inv. intros [g e] Hge.
    assert (∃ disabled k v, mapping disabled c !! k = Some v)
      as (disabled & k & v & Hv).
    { apply (elem_of_collectCenter range range_perm) in Hge
        as [(k & n & Hn & _)|(k & v & Hv & _)].
      - by exists false, k, n.
      - by exists true, k, v. }
    apply Hmap in Hv as [_ (a & Ha & Hp & _ & Hk)%referenced_elem_of].
    rewrite (Hnone a Ha Hp) in Hk. by apply elem_of_nil in Hk.
Qed.
End samples.

(** ** The order of iteration does not matter *)

Lemma flat_map_Permutation {A B} (f g : A → list B) (l l' : list A) :
  l ≡ₚ l' → (∀ x, f x ≡ₚ g x) → flat_map f l ≡ₚ flat_map g l'.
Proof.
  intros Hl Hfg. trans (flat_map f l').
  - induction Hl as [|x l l' _ IH|x y l|l1 l2 l3 _ IH1 _ IH2]; simpl.
    + done.
    + by rewrite IH.
    + rewrite !app_assoc. f_equiv. apply Permutation_app_comm.
    + by etrans.
  - clear Hl. induction l' as [|x l' IH]; simpl; [done|]. by rewrite Hfg, IH.
Qed.

(** X10: Two scrapes of the same world that visit the maps in different orders
    both panic or both return, and then with the same events up to their
    order: the same samples, requests and log lines, each as often. *)
Theorem Collect_order_independent range1 range2 w :
  (∀ (A : Type) (m : gmap Z A), range1 A m ≡ₚ map_to_list m) →
  (∀ (A : Type) (m : gmap Z A), range2 A m ≡ₚ map_to_list m) →
  match Collect range1 w, Collect range2 w with
  | Some tr1, Some tr2 => tr1 ≡ₚ tr2
  | None, None => True
  | _, _ => False
  end.
Proof.
  intros H1 H2. unfold Collect, Impfzentren.
  destruct (fetch (catalog w)) as [ciz|err]; [|done].
  destruct (classify ciz) as [m|]; [|done].
  assert (∀ (A : Type) (m : gmap Z A), range1 A m ≡ₚ range2 A m) as H12
    by (intros; by rewrite H1, H2).
  apply flat_map_Permutation; [by rewrite H12|].
  intros c. unfold collectCenter. apply Permutation_app.
  - by apply flat_map_Permutation.
  - by rewrite H12.
Qed.

Lemma backwards_perm (A : Type) (m : gmap Z A) : backwards A m ≡ₚ map_to_list m.
Proof. apply reverse_Permutation. Defined.

Lemma Collect_order_independent_witness :
  match Collect inOrder (world (ok arena) (ok hintOnly) (Date 2024 1 10)),
        Collect backwards (world (ok arena) (ok hintOnly) (Date 2024 1 10)) with
  | Some tr1, Some tr2 => tr1 ≡ₚ tr2
  | None, None => True
  | _, _ => False
  end.
Proof.
  apply (Collect_order_independent inOrder backwards
           (world (ok arena) (ok hintOnly) (Date 2024 1 10))
           inOrder_perm backwards_perm).
Defined.

(** ** The sample scrape *)

Lemma sampleRun_Collect : Collect inOrder sampleWorld = Some sampleRun.
Proof. vm_compute. reflexivity. Defined.

Lemma sampleRun_Impfzentren :
  Impfzentren inOrder (catalog sampleWorld) = Return [oneOfEachCenter].
Proof. vm_compute. reflexivity. Defined.

Lemma Collect_samples_fit_their_descriptors_witness :
  length (labelValues (presence oneOfEachCenter "Moderna" "true"))
  = length (variableLabels
              (descriptor (desc (presence oneOfEachCenter "Moderna" "true"))))
  ∧ (Main = Main →
       desc (presence oneOfEachCenter "Moderna" "true") = impfzentrumMetric
       ∧ value (presence oneOfEachCenter "Moderna" "true") = float64 1
       ∧ ∃ name type disabled,
           labelValues (presence oneOfEachCenter "Moderna" "true")
           = [name; type; disabled]
           ∧ (disabled = "true" ∨ disabled = "false"))
  ∧ (Main ≠ Main → desc (presence oneOfEachCenter "Moderna" "true") = nextSlotMetric).
Proof.
  apply (Collect_samples_fit_their_descriptors inOrder inOrder_perm
           sampleWorld sampleRun Main (presence oneOfEachCenter "Moderna" "true")).
  - exact sampleRun_Collect.
  - vm_compute. apply list_elem_of_further, list_elem_of_here.
Defined.

Lemma Describe_announces_presence_only_witness :
  (Describe zeroCollector).1
  = {| cl_impfzentrumMetric := Some (descriptor impfzentrumMetric);
       cl_nextSlotMetric := Some (descriptor nextSlotMetric) |}
  ∧ (Describe zeroCollector).2 = [Some (descriptor impfzentrumMetric)]
  ∧ (Some (descriptor
             (desc (nextSlotSample oneOfEachCenter "BioNTech"
                      (Date 2024 1 10) (Date 2024 2 1))))
       ∈ (Describe zeroCollector).2 ↔ Worker 1 5 = Main).
Proof.
  apply (Describe_announces_presence_only inOrder inOrder_perm zeroCollector
           sampleWorld sampleRun (Worker 1 5)
           (nextSlotSample oneOfEachCenter "BioNTech" (Date 2024 1 10) (Date 2024 2 1))).
  - left. reflexivity.
  - exact sampleRun_Collect.
  - vm_compute. apply list_elem_of_here.
Defined.

Lemma Collect_requests_each_enabled_pair_once_witness :
  ∃ tr, Collect inOrder sampleWorld = Some tr
    ∧ requested tr
      = flat_map (λ c, (λ kv, (ID c, kv.1, AgendaIDs c))
                         <$> inOrder _ (Vaccination c)) [oneOfEachCenter]
    ∧ length (requested tr)
      = sum_list ((λ c, size (Vaccination c)) <$> [oneOfEachCenter])
    ∧ NoDup ((λ r, (r.1.1, r.1.2)) <$> requested tr).
Proof.
  apply (Collect_requests_each_enabled_pair_once inOrder inOrder_perm
           sampleWorld [oneOfEachCenter]).
  exact sampleRun_Impfzentren.
Defined.

Lemma Collect_samples_counted_witness :
  ∃ tr, Collect inOrder sampleWorld = Some tr
    ∧ sent Main tr
      = flat_map (λ c, ((λ kv, presence c kv.2 "false") <$> inOrder _ (Vaccination c))
                       ++ ((λ kv, presence c kv.2 "true")
                             <$> inOrder _ (DisabledVaccination c)))
          [oneOfEachCenter]
    ∧ length (sent Main tr)
      = sum_list ((λ c, size (Vaccination c) + size (DisabledVaccination c))%nat
                    <$> [oneOfEachCenter])
    ∧ ∀ p k, (length (sent (Worker p k) tr) ≤ 1)%nat.
Proof.
  apply (Collect_samples_counted inOrder inOrder_perm sampleWorld [oneOfEachCenter]).
  exact sampleRun_Impfzentren.
Defined.

Lemma center_AgendaIDs_witness :
  AgendaIDs oneOfEachCenter
  = Agenda_ID <$> filter (λ a, Agenda_PracticeID a = ID oneOfEachCenter)
                    (Agendas oneOfEach).
Proof.
  apply (center_AgendaIDs inOrder inOrder_perm (catalog sampleWorld) oneOfEach
           [oneOfEachCenter] oneOfEachCenter).
  - reflexivity.
  - exact sampleRun_Impfzentren.
  - apply list_elem_of_here.
Defined.

Lemma center_names_last_wins_witness :
  ((6 ∉ VisitMotive_ID <$> VisitMotives oneOfEach) ∧ "Moderna" = "")
  ∨ ∃ ms1 vm ms2, VisitMotives oneOfEach = ms1 ++ vm :: ms2
      ∧ VisitMotive_ID vm = 6 ∧ (6 ∉ VisitMotive_ID <$> ms2)
      ∧ "Moderna" = VisitMotive_Name vm.
Proof.
  apply (center_names_last_wins inOrder inOrder_perm (catalog sampleWorld) oneOfEach
           [oneOfEachCenter] oneOfEachCenter true 6 "Moderna").
  - reflexivity.
  - exact sampleRun_Impfzentren.
  - apply list_elem_of_here.
  - vm_compute. reflexivity.
Defined.

Lemma Collect_requests_are_for_bookable_types_witness :
  1 ∈ firstPracticeIDs (Places oneOfEach)
  ∧ [10; 11] = Agenda_ID <$> filter (λ a, Agenda_PracticeID a = 1) (Agendas oneOfEach)
  ∧ [10; 11] ≠ []
  ∧ ∃ b, b ∈ Agendas oneOfEach ∧ Agenda_PracticeID b = 1
      ∧ Agenda_BookingDisabled b = false
      ∧ Agenda_BookingTemporayDisabled b = false
      ∧ 5 ∈ Agenda_VisitMotives b.
Proof.
  apply (Collect_requests_are_for_bookable_types inOrder inOrder_perm
           sampleWorld oneOfEach sampleRun 1 5 [10; 11]).
  - reflexivity.
  - exact sampleRun_Collect.
  - vm_compute. apply list_elem_of_here.
Defined.

Lemma center_without_types_is_silent_witness :
  collectCenter inOrder sampleWorld oneOfEachCenter = []
  ↔ ∀ a, a ∈ Agendas oneOfEach → Agenda_PracticeID a = ID oneOfEachCenter →
         Agenda_VisitMotives a = [].
Proof.
  apply (center_without_types_is_silent inOrder inOrder_perm sampleWorld oneOfEach
           [oneOfEachCenter] oneOfEachCenter).
  - reflexivity.
  - exact sampleRun_Impfzentren.
  - apply list_elem_of_here.
Defined.

(** ** Dates and durations *)

Lemma digitChar_digit n :
  0 ≤ n ≤ 9 → isDigit (digitChar n) = true ∧ digit (digitChar n) = n.
Proof.
  intros Hn.
  assert (n = 0 ∨ n = 1 ∨ n = 2 ∨ n = 3 ∨ n = 4 ∨ n = 5 ∨ n = 6 ∨ n = 7
          ∨ n = 8 ∨ n = 9) as Hcases by lia.
  destruct_or!; subst n; by vm_compute.
Qed.

Lemma isDigit_digitChar c :
  isDigit c = true → 0 ≤ digit c ≤ 9 ∧ digitChar (digit c) = c.
Proof.
  unfold isDigit, digit, digitChar.
  intros [H1 H2]%andb_true_iff. apply N.leb_le in H1, H2. split; [lia|].
  replace (48 + (Z.of_N (N_of_ascii c) - 48)) with (Z.of_N (N_of_ascii c)) by lia.
  by rewrite N2Z.id, ascii_N_embedding.
Qed.

Lemma daysIn_bounds month year :
  1 ≤ month ≤ 12 → 28 ≤ daysIn month year ≤ 31.
Proof.
  intros Hm.
  assert (month = 1 ∨ month = 2 ∨ month = 3 ∨ month = 4 ∨ month = 5 ∨ month = 6
          ∨ month = 7 ∨ month = 8 ∨ month = 9 ∨ month = 10 ∨ month = 11
          ∨ month = 12) as Hcases by lia.
  unfold daysIn. destruct_or!; subst month; destruct (isLeap year); by vm_compute.
Qed.

(** X14: The layout is read back as it is written: [time.Parse] accepts exactly
    the strings [Format] writes for the days of the calendar, and gives
    midnight UTC of the day written. *)
Theorem Parse_accepts_what_Format_writes value t :
  Parse value = Some t
  ↔ ∃ year month day, validDate year month day
      ∧ value = Format year month day ∧ t = Date year month day.
Proof.
  split.
  - unfold Parse. intros HP.
    destruct (list_ascii_of_string value)
      as [|y1 [|y2 [|y3 [|y4 [|s1 [|m1 [|m2 [|s2 [|d1 [|d2 [|? ?]]]]]]]]]]] eqn:Hl;
      try done.
    destruct (forallb isDigit [y1; y2; y3; y4; m1; m2; d1; d2]
              && Ascii.eqb s1 "-" && Ascii.eqb s2 "-") eqn:Hok; [|done].
    apply andb_true_iff in Hok as [[Hdig Hs1%Ascii.eqb_eq]%andb_true_iff Hs2%Ascii.eqb_eq].
    subst s1 s2. cbn [forallb] in Hdig.
    repeat (apply andb_true_iff in Hdig as [?%isDigit_digitChar Hdig]).
    destruct_and!.
    set (year := 1000 * digit y1 + 100 * digit y2 + 10 * digit y3 + digit y4) in *.
    set (month := 10 * digit m1 + digit m2) in *.
    set (day := 10 * digit d1 + digit d2) in *.
    destruct ((month <=? 0) || (12 <? month)) eqn:Hm; [done|].
    destruct ((day <? 1) || (daysIn month year <? day)) eqn:Hd; [done|].
    injection HP as <-.
    apply orb_false_elim in Hm as [Hm1%Z.leb_gt Hm2%Z.ltb_ge].
    apply orb_false_elim in Hd as [Hd1%Z.ltb_ge Hd2%Z.ltb_ge].
    exists year, month, day.
    split_and!; [unfold validDate; subst year month day; lia | | done].
    rewrite <- (string_of_list_ascii_of_string value), Hl. unfold Format.
    assert (year / 1000 mod 10 = digit y1) as -> by (subst year; Z.div_mod_to_equations; lia).
    assert (year / 100 mod 10 = digit y2) as -> by (subst year; Z.div_mod_to_equations; lia).
    assert (year / 10 mod 10 = digit y3) as -> by (subst year; Z.div_mod_to_equations; lia).
    assert (year mod 10 = digit y4) as -> by (subst year; Z.div_mod_to_equations; lia).
    assert (month / 10 mod 10 = digit m1) as -> by (subst month; Z.div_mod_to_equations; lia).
    assert (month mod 10 = digit m2) as -> by (subst month; Z.div_mod_to_equations; lia).
    assert (day / 10 mod 10 = digit d1) as -> by (subst day; Z.div_mod_to_equations; lia).
    assert (day mod 10 = digit d2) as -> by (subst day; Z.div_mod_to_equations; lia).
    congruence.
  - intros (year & month & day & (Hy & Hm & Hd) & -> & ->).
    pose proof (daysIn_bounds month year Hm) as Hdays.
    unfold Parse, Format. rewrite list_ascii_of_string_of_list_ascii.
    cbn [forallb].
    repeat match goal with
           | |- context [digitChar ?n] =>
               let H := fresh in
               assert (0 ≤ n ≤ 9) as H by (Z.div_mod_to_equations; lia);
               destruct (digitChar_digit n H) as [-> ->]; clear H
           end.
    cbn [andb Ascii.eqb Bool.eqb].
    replace (1000 * (year / 1000 mod 10) + 100 * (year / 100 mod 10)
             + 10 * (year / 10 mod 10) + year mod 10) with year
      by (Z.div_mod_to_equations; lia).
    replace (10 * (month / 10 mod 10) + month mod 10) with month
      by (Z.div_mod_to_equations; lia).
    replace (10 * (day / 10 mod 10) + day mod 10) with day
      by (Z.div_mod_to_equations; lia).
    rewrite (proj2 (Z.leb_gt month 0)), (proj2 (Z.ltb_ge 12 month)) by lia.
    by rewrite (proj2 (Z.ltb_ge day 1)), (proj2 (Z.ltb_ge (daysIn month year) day)) by lia.
Qed.






(** ** The request URL *)

Lemma append_String a s1 s2 : String a s1 +:+ s2 = String a (s1 +:+ s2).
Proof. done. Qed.

Lemma append_empty_l s : "" +:+ s = s.
Proof. done. Qed.

Lemma append_assoc s1 s2 s3 : (s1 +:+ s2) +:+ s3 = s1 +:+ (s2 +:+ s3).
Proof.
  induction s1 as [|a s1 IH]; [done|]. by rewrite !append_String, IH.
Qed.

Lemma length_append s1 s2 :
  String.length (s1 +:+ s2) = (String.length s1 + String.length s2)%nat.
Proof.
  induction s1 as [|a s1 IH]; [done|]. rewrite append_String. simpl.
  by rewrite IH.
Qed.

Lemma plain_append s1 s2 : plain (s1 +:+ s2) = plain s1 && plain s2.
Proof.
  induction s1 as [|a s1 IH]; [done|]. rewrite append_String. simpl.
  by rewrite IH, andb_assoc.
Qed.

Lemma length_QueryEscape s :
  (String.length s ≤ String.length (QueryEscape s))%nat.
Proof.
  induction s as [|c s IH]; simpl; [done|].
  destruct (Ascii.eqb c " "); [simpl; lia|].
  destruct (shouldEscape c); simpl; lia.
Qed.

Lemma upperhex_plain n : (n < 16)%N → shouldEscape (upperhex n) = false.
Proof.
  intros Hn.
  assert (n = 0 ∨ n = 1 ∨ n = 2 ∨ n = 3 ∨ n = 4 ∨ n = 5 ∨ n = 6 ∨ n = 7
          ∨ n = 8 ∨ n = 9 ∨ n = 10 ∨ n = 11 ∨ n = 12 ∨ n = 13 ∨ n = 14
          ∨ n = 15)%N as Hcases by lia.
  destruct_or!; subst n; by vm_compute.
Qed.

Lemma QueryEscape_plain s : plain s = true → QueryEscape s = s.
Proof.
  induction s as [|c s IH]; simpl; [done|].
  intros [Hc%negb_true_iff Hs]%andb_true_iff.
  destruct (Ascii.eqb_spec c " ") as [->|Hsp]; [done|].
  by rewrite Hc, IH.
Qed.

(** X17: [url.QueryEscape] returns a string in which every byte is a letter, a
    digit, one of [-_.~], a [%] or a [+], never shorter than its argument,
    and it returns its argument unchanged exactly when no byte of it has to
    be escaped. *)
Theorem QueryEscape_escapes s :
  escaped (QueryEscape s) = true
  ∧ (String.length s ≤ String.length (QueryEscape s))%nat
  ∧ (QueryEscape s = s ↔ plain s = true).
Proof.
  split_and!; [|apply length_QueryEscape|].
  - induction s as [|c s IH]; simpl; [done|].
    destruct (Ascii.eqb c " "); [simpl; by rewrite IH|].
    destruct (shouldEscape c) eqn:Hc; simpl.
    + pose proof (N_ascii_bounded c) as Hb.
      rewrite !upperhex_plain, IH; [done|..].
      * apply N.mod_lt. done.
      * apply N.Div0.div_lt_upper_bound. lia.
    + by rewrite Hc, IH.
  - induction s as [|c s IH]; simpl; [done|].
    destruct (Ascii.eqb_spec c " ") as [->|Hsp].
    { split; [by intros [=] | done]. }
    destruct (shouldEscape c) eqn:Hc; simpl.
    + split; [|done]. intros [= <- Hs]. exfalso.
      pose proof (length_QueryEscape s) as Hlen.
      rewrite <- Hs in Hlen at 1. simpl in Hlen. lia.
    + rewrite <- IH. split; [by intros [= ->] | by intros ->].
Qed.

Lemma append_empty_r s : s +:+ "" = s.
Proof. induction s as [|a s IH]; [done|]. by rewrite append_String, IH. Qed.

Lemma foldl_flat_map {A B C} (f : A → B → A) (g : C → list B) (b : A)
    (l : list C) :
  foldl f b (flat_map g l) = foldl (λ b x, foldl f b (g x)) b l.
Proof.
  revert b. induction l as [|x l IH]; intros b; simpl; [done|].
  by rewrite foldl_app, IH.
Qed.

Lemma foldl_pointwise {A B} (f g : A → B → A) (b : A) (l : list B) :
  (∀ b x, f b x = g b x) → foldl f b l = foldl g b l.
Proof.
  intros Hfg. revert b. induction l as [|x l IH]; intros b; simpl; [done|].
  by rewrite Hfg, IH.
Qed.

(** Writing items that are not empty one after the other, with [&] before
    each but the first, joins them with [&]. *)
Lemma writes_concat (items : list string) :
  Forall (λ item, item ≠ "") items →
  foldl (λ buf item,
           (if (0 <? String.length buf)%nat then buf +:+ "&" else buf) +:+ item)
        "" items
  = String.concat "&" items.
Proof.
  assert (∀ items b, b ≠ "" →
            foldl (λ buf item,
                     (if (0 <? String.length buf)%nat then buf +:+ "&" else buf)
                     +:+ item) b items
            = b +:+ foldr (λ item acc, "&" +:+ item +:+ acc) "" items) as Hgo.
  { clear. induction items as [|item items IH]; intros b Hb; simpl.
    - by rewrite append_empty_r.
    - destruct b as [|a b]; [done|]. simpl. rewrite IH; [|done].
      by rewrite !append_String, !append_assoc. }
  assert (∀ item items,
            String.concat "&" (item :: items)
            = item +:+ foldr (λ item acc, "&" +:+ item +:+ acc) "" items) as Hcat.
  { clear. intros item items. revert item.
    induction items as [|item' items IH]; intros item; simpl.
    - by rewrite append_empty_r.
    - by rewrite <- IH. }
  intros Hne. destruct items as [|item items]; [done|].
  apply Forall_cons in Hne as [Hitem _]. rewrite Hcat. simpl.
  by apply Hgo.
Qed.

Lemma Values_Encode_Join v :
  Values_Encode v
  = Join ((λ kv, QueryEscape kv.1 +:+ "=" +:+ QueryEscape kv.2) <$> Values_pairs v)
      "&".
Proof.
  unfold Join. rewrite <- writes_concat.
  - unfold Values_Encode, Values_pairs.
    rewrite fmap_flat_map, foldl_flat_map.
    apply foldl_pointwise. intros b k.
    by rewrite <- list_fmap_compose, foldl_fmap.
  - apply Forall_forall. intros item ([k value] & -> & _)%list_elem_of_fmap.
    simpl. intros Hnil. apply (f_equal String.length) in Hnil.
    rewrite !length_append in Hnil. simpl in Hnil. lia.
Qed.

(** X18: [url.Values.Encode] writes [key=value], both escaped, for every value
    of every key, joined with [&]; the keys come in ascending order of
    their bytes, whatever the order in which they were added, and the
    values of a key are those the map holds for it. *)
Theorem Values_Encode_sorted_pairs v :
  Values_Encode v
  = Join ((λ kv, QueryEscape kv.1 +:+ "=" +:+ QueryEscape kv.2) <$> Values_pairs v)
      "&"
  ∧ Sorted String.le (merge_sort String.le (map_to_list v).*1)
  ∧ (∀ k value, (k, value) ∈ Values_pairs v
                ↔ ∃ values, v !! k = Some values ∧ value ∈ values).
Proof.
  split_and!.
  - apply Values_Encode_Join.
  - apply Sorted_merge_sort. apply _.
  - intros k value. unfold Values_pairs. rewrite elem_of_flat_map. split.
    + intros (k' & Hk' & Hin).
      apply list_elem_of_fmap in Hin as (value' & Heq & Hvalue).
      injection Heq as -> ->.
      destruct (v !! k') as [values|] eqn:Hv; [by eauto|].
      by apply elem_of_nil in Hvalue.
    + intros (values & Hv & Hvalue). exists k. split.
      * rewrite merge_sort_Permutation. apply list_elem_of_fmap.
        exists (k, values). split; [done|]. by apply elem_of_map_to_list.
      * rewrite Hv. simpl. apply list_elem_of_fmap. by exists value.
Qed.

Lemma isDigit_plain c : isDigit c = true → shouldEscape c = false.
Proof.
  unfold isDigit, shouldEscape. intros ->. by rewrite orb_true_r.
Qed.

Lemma plain_pretty_N_go (x : N) : ∀ s, plain s = true → plain (pretty_N_go x s) = true.
Proof.
  induction (N.lt_wf_0 x) as [x _ IH]. intros s Hs.
  destruct (decide (0 < x)%N) as [Hx|Hx].
  - rewrite pretty_N_go_step by done. apply IH.
    + apply N.div_lt; [done | lia].
    + simpl. rewrite Hs, andb_true_r.
      assert (shouldEscape (pretty_N_char (x `mod` 10)) = false) as ->; [|done].
      pose proof (N.mod_lt x 10) as Hr. remember (x `mod` 10)%N as r.
      assert (r = 0 ∨ r = 1 ∨ r = 2 ∨ r = 3 ∨ r = 4 ∨ r = 5 ∨ r = 6 ∨ r = 7
              ∨ r = 8 ∨ r = 9)%N as Hcases by lia.
      clear Heqr. destruct_or!; subst r; by vm_compute.
  - assert (x = 0%N) as -> by lia. by rewrite pretty_N_go_0.
Qed.

(** A number is written with digits and at most a sign: nothing of it is
    escaped. *)
Lemma plain_Itoa i : plain (Itoa i) = true.
Proof.
  unfold Itoa, pretty, pretty_Z.
  assert (∀ p : positive, plain (pretty p) = true) as Hpos.
  { intros p. unfold pretty, pretty_positive, pretty, pretty_N.
    destruct (decide (N.pos p = 0%N)); [done|]. by apply plain_pretty_N_go. }
  destruct i as [|p|p]; [done | apply Hpos |].
  rewrite plain_append, Hpos. done.
Qed.

Lemma plain_Join elems sep :
  plain sep = true → Forall (λ e, plain e = true) elems →
  plain (Join elems sep) = true.
Proof.
  intros Hsep Helems. unfold Join.
  induction Helems as [|e elems He _ IH]; [done|]. simpl.
  destruct elems as [|e' elems]; [done|].
  by rewrite !plain_append, He, Hsep, IH.
Qed.

Lemma plain_Format year month day :
  validDate year month day → plain (Format year month day) = true.
Proof.
  intros (Hy & Hm & Hd). pose proof (daysIn_bounds month year Hm).
  unfold Format. simpl.
  repeat match goal with
         | |- context [shouldEscape (digitChar ?n)] =>
             rewrite (isDigit_plain (digitChar n))
               by (apply digitChar_digit; Z.div_mod_to_equations; lia)
         end.
  done.
Qed.

(** The seven parameters, by key, as [Encode] orders them. *)
Lemma availabilitiesParams_pairs today practice motive aganda_ids :
  Values_pairs (availabilitiesParams today practice motive aganda_ids)
  = [("agenda_ids", Join (Itoa <$> aganda_ids) "-");
     ("destroy_temporary", "true"); ("insurance_sector", "public");
     ("limit", "4"); ("practice_ids", Itoa practice); ("start_date", today);
     ("visit_motive_ids", Itoa motive)].
Proof.
  unfold availabilitiesParams.
  generalize (Join (Itoa <$> aganda_ids) "-") (Itoa practice) (Itoa motive).
  intros s1 s2 s3. vm_compute. reflexivity.
Qed.

(** X19: Whatever the centre, the type and the day, the request goes to
    [availabilities.json] with the seven parameters in the order of their
    keys and nothing of them escaped: the agenda identifiers in decimal
    joined by dashes, in the order of the centre's list, the two fixed
    filters, the limit of 4, the practice, the day and the type. *)
Theorem availabilitiesURL_written_out year month day practice motive aganda_ids :
  validDate year month day →
  availabilitiesURL (Format year month day) practice motive aganda_ids
  = "https://www.doctolib.de/availabilities.json?agenda_ids="
    +:+ Join (Itoa <$> aganda_ids) "-"
    +:+ "&destroy_temporary=true&insurance_sector=public&limit=4&practice_ids="
    +:+ Itoa practice
    +:+ "&start_date=" +:+ Format year month day
    +:+ "&visit_motive_ids=" +:+ Itoa motive.
Proof.
  intros Hdate. unfold availabilitiesURL.
  rewrite Values_Encode_Join.
  rewrite availabilitiesParams_pairs. unfold Join at 1.
  cbn [fmap list_fmap String.concat fst snd].
  assert (plain (Join (Itoa <$> aganda_ids) "-") = true) as Hids.
  { apply plain_Join; [done|]. apply Forall_forall.
    intros e (i & -> & _)%list_elem_of_fmap. apply plain_Itoa. }
  rewrite (QueryEscape_plain _ Hids).
  rewrite (QueryEscape_plain _ (plain_Itoa practice)).
  rewrite (QueryEscape_plain _ (plain_Itoa motive)).
  rewrite (QueryEscape_plain _ (plain_Format _ _ _ Hdate)).
  rewrite !append_assoc. reflexivity.
Qed.


Lemma availabilitiesURL_written_out_witness :
  availabilitiesURL (Format 2024 1 10) 1 5 [10; 11]
  = "https://www.doctolib.de/availabilities.json?agenda_ids="
    +:+ Join (Itoa <$> [10; 11]) "-"
    +:+ "&destroy_temporary=true&insurance_sector=public&limit=4&practice_ids="
    +:+ Itoa 1
    +:+ "&start_date=" +:+ Format 2024 1 10
    +:+ "&visit_motive_ids=" +:+ Itoa 5.
Proof.
  apply (availabilitiesURL_written_out 2024 1 10 1 5 [10; 11]).
  unfold validDate. split_and!; by vm_compute.
Defined.

(** ** The three ways a catalogue request ends *)

(** X1: [Impfzentren] returns an error exactly when the request fails, and
    then that error; it returns centres exactly when the catalogue arrives
    and every agenda belongs to a practice that some place lists first; in
    the one case left, a catalogue with an agenda of another practice, it
    panics, and the scrape with it. *)
Theorem scrape_outcomes range w :
  (∀ err, Impfzentren range (catalog w) = Fail err ↔ fetch (catalog w) = inr err)
  ∧ ((∃ centers, Impfzentren range (catalog w) = Return centers)
     ↔ ∃ ciz, fetch (catalog w) = inl ciz ∧ agendasMatch ciz)
  ∧ (Impfzentren range (catalog w) = Panic
     ↔ ∃ ciz, fetch (catalog w) = inl ciz ∧ ¬ agendasMatch ciz)
  ∧ (Collect range w = None ↔ Impfzentren range (catalog w) = Panic).
Proof.
  unfold Collect, Impfzentren.
  destruct (fetch (catalog w)) as [ciz|err0].
  - destruct (classify ciz) as [m|] eqn:Hm.
    + assert (agendasMatch ciz) as Hmatch by (apply classify_is_Some; eauto).
      split_and!.
      * by split.
      * split; [by exists ciz | by eauto].
      * split; [done|]. by intros (? & [= <-] & Hno).
      * done.
    + assert (¬ agendasMatch ciz) as Hno.
      { intros [? ?]%classify_is_Some. congruence. }
      split_and!.
      * by split.
      * split; [by intros [? ?] | by intros (? & [= <-] & ?)].
      * split; [by exists ciz | done].
      * done.
  - split_and!.
    + intros err. split; by intros [= ->].
    + split; [by intros [? ?] | by intros (? & ? & _)].
    + split; [done | by intros (? & ? & _)].
    + done.
Qed.

(** ** What a goroutine logs *)

(** X20: The goroutine of a pair logs a failure exactly when the pair fails, and
    then sends nothing: a failed request is logged with the name of the
    centre and the error of the request, a date that does not parse with
    that date.  A pair without a next date logs no failure. *)
Theorem CollectAvailability_logs_every_failure w c k n :
  (pairFails w c k
   ↔ ∃ l, Log l ∈ CollectAvailability w c k n ∧ failureLine c l)
  ∧ (pairFails w c k → ∀ s, Send s ∉ CollectAvailability w c k n)
  ∧ (∀ name err,
       Log (FailedToGetAvailabilities name err) ∈ CollectAvailability w c k n
       ↔ name = Name c
         ∧ fetch (availabilities w (ID c) k (AgendaIDs c)) = inr err)
  ∧ (∀ date,
       Log (FailedToParseNextSlot date) ∈ CollectAvailability w c k n
       ↔ ∃ r, fetch (availabilities w (ID c) k (AgendaIDs c)) = inl r
           ∧ date = nextDate r ∧ date ≠ "" ∧ Parse date = None).
Proof.
  unfold pairFails. rewrite fetch_fails.
  unfold CollectAvailability, GetAvailabilities.
  destruct (fetch (availabilities w (ID c) k (AgendaIDs c))) as [r|err].
  - destruct (String.eqb_spec (nextDate r) "") as [He|He];
      [|destruct (Parse (nextDate r)) as [t|] eqn:Hp].
    + split_and!.
      * split.
        -- intros [[? [=]]|(r' & [= <-] & ? & _)]; done.
        -- intros (l & Hl & Hline). events_in Hl.
      * intros [[? [=]]|(r' & [= <-] & ? & _)]; done.
      * intros name err. split; [intros Hl; events_in Hl | by intros [_ [=]]].
      * intros date. split; [intros Hl; events_in Hl|].
        intros (r' & [= <-] & -> & ? & _). done.
    + split_and!.
      * split.
        -- intros [[? [=]]|(r' & [= <-] & _ & ?)]; congruence.
        -- intros (l & Hl & Hline). events_in Hl.
      * intros [[? [=]]|(r' & [= <-] & _ & ?)]; congruence.
      * intros name err. split; [intros Hl; events_in Hl | by intros [_ [=]]].
      * intros date. split; [intros Hl; events_in Hl|].
        intros (r' & [= <-] & -> & _ & ?). congruence.
    + split_and!.
      * split; [|by right; exists r].
        intros _. exists (FailedToParseNextSlot (nextDate r)). split; [|done].
        simpl. rewrite !elem_of_cons. tauto.
      * intros _ s Hs. events_in Hs.
      * intros name err. split; [intros Hl; events_in Hl | by intros [_ [=]]].
      * intros date. split.
        -- intros Hl; events_in Hl. by exists r.
        -- intros (r' & [= <-] & -> & _). simpl. rewrite !elem_of_cons. tauto.
  - split_and!.
    + split; [|by left; exists err].
      intros _. exists (FailedToGetAvailabilities (Name c) err). split; [|done].
      simpl. rewrite !elem_of_cons. tauto.
    + intros _ s Hs. events_in Hs.
    + intros name err'. split.
      * intros Hl; events_in Hl.
      * intros [-> [= ->]]. simpl. rewrite !elem_of_cons. tauto.
    + intros date. split; [intros Hl; events_in Hl | by intros (? & [=] & _)].
Qed.
